(** * tools/splade_generate_golden.py: golden SPLADE fixtures

    A shallow embedding of the generator script and the properties its
    specification states about it.

    Modelling conventions.
    - A Python [int] is a [Z].
    - A Python [float] is the rational number it denotes ([Q]); the
      comparisons of the script are the comparisons of [Q].  Infinities and
      NaN have no counterpart here.
    - A Python [str] is a [string], each character standing for a code point
      in the range 0..255.
    - The Hugging Face tokenizer and model, [torch.log1p], [json], [hashlib]
      and the clock are external to the repository: they appear as
      parameters (records of functions), rows of a batch being independent
      of each other under [padding="max_length"].
    - [main] runs in an explicit world: a file system, the error stream and
      the log of [from_pretrained] calls. *)

From Stdlib Require Import String Ascii DecimalString.
From Stdlib Require Import ZArith QArith Qminmax Bool Lia Lqa.
From Stdlib Require Import List Sorting.Sorted Sorting.Permutation.
Import ListNotations.

Local Open Scope Z_scope.

(** ** Numbers and sequences of the script *)

(** The type of Python's floats. *)
Abbreviation pyfloat := Q (only parsing).

(** [x < y] on floats, as a boolean. *)
Definition Qlt_bool (x y : Q) : bool :=
  match Qcompare x y with
  | Lt => true
  | _ => false
  end.

(** [enumerate(values)], counting from [n]. *)
Fixpoint enumerate_from {A : Type} (n : Z) (l : list A) : list (Z * A) :=
  match l with
  | [] => []
  | x :: xs => (n, x) :: enumerate_from (n + 1) xs
  end.

Definition enumerate {A : Type} (l : list A) : list (Z * A) :=
  enumerate_from 0 l.

(** [list.sort(key=...)]: a stable sort that compares keys with [<] only.
    [insert_by x l] puts [x] in front of the first element whose key is not
    smaller than the key of [x]; sorting inserts the elements from the
    right, so equal keys keep their order. *)
Section PySort.
Context {A K : Type} (lt : K -> K -> bool) (key : A -> K).

Fixpoint insert_by (x : A) (l : list A) : list A :=
  match l with
  | [] => [x]
  | y :: l' => if lt (key y) (key x) then y :: insert_by x l' else x :: y :: l'
  end.

Definition sort_by (l : list A) : list A := fold_right insert_by [] l.

End PySort.

(** [a] may stand before [b] in a sorted list: the key of [b] is not
    smaller than the key of [a]. *)
Definition key_le {A K : Type} (lt : K -> K -> bool) (key : A -> K) (a b : A) : Prop :=
  lt (key b) (key a) = false.

(** [<] on the tuples [(float, int)] used as sort keys: the first components
    decide unless they are equal. *)
Definition tuple_lt (a b : Q * Z) : bool :=
  if Qeq_bool (fst a) (fst b) then snd a <? snd b else Qlt_bool (fst a) (fst b).

(** ** The tokenizer, seen from the script *)

Record Encoding : Type := {
  input_ids : list Z;
  attention_mask : list Z
}.

Record Tokenizer : Type := {
  (** [tokenizer(text, truncation=True, padding="max_length", max_length=n)]
      for one text of a batch *)
  tokenize : string -> Z -> Encoding;
  (** the vocabulary entry of one id *)
  id_to_token : Z -> string
}.

Definition convert_ids_to_tokens (tokenizer : Tokenizer) (ids : list Z) : list string :=
  map (id_to_token tokenizer) ids.

(** ** dense_row_to_sparse *)

Record SparseVector : Type := {
  indices : list Z;
  values : list pyfloat;
  labels : list string
}.

(** One turn of the loop over [enumerate(values)]. *)
Definition prune_step (prune_threshold : pyfloat) (pairs : list (Z * pyfloat))
    (item : Z * pyfloat) : list (Z * pyfloat) :=
  let '(idx, value) := item in
  if Qle_bool value prune_threshold then pairs else pairs ++ [(idx, value)].

(** Lines 184-189: the pairs that survive pruning. *)
Definition prune_pairs (row : list pyfloat) (prune_threshold : pyfloat) : list (Z * pyfloat) :=
  fold_left (prune_step prune_threshold) (enumerate row) [].

Definition topk_key (item : Z * pyfloat) : Q * Z := ((- snd item)%Q, fst item).

(** Lines 191-193: the top-k selection. *)
Definition select_top_k (top_k : Z) (pairs : list (Z * pyfloat)) : list (Z * pyfloat) :=
  if (0 <? top_k) && (top_k <? Z.of_nat (length pairs))
  then firstn (Z.to_nat top_k) (sort_by tuple_lt topk_key pairs)
  else pairs.

(** Truthiness of a list. *)
Definition nonempty {A : Type} (l : list A) : bool :=
  match l with
  | [] => false
  | _ :: _ => true
  end.

Definition dense_row_to_sparse (row : list pyfloat) (tokenizer : Tokenizer)
    (top_k : Z) (prune_threshold : pyfloat) (with_labels : bool) : SparseVector :=
  let pairs := prune_pairs row prune_threshold in
  let pairs := select_top_k top_k pairs in
  let pairs := sort_by Z.ltb fst pairs in
  let indices := map fst pairs in
  let sparse_values := map snd pairs in
  let labels :=
    if with_labels && nonempty indices
    then convert_ids_to_tokens tokenizer indices
    else [] in
  {| indices := indices; values := sparse_values; labels := labels |}.

(** ** Exceptions and the world [main] runs in *)

Inductive exn : Type :=
| FileNotFoundError
| FileExistsError
| IsADirectoryError
| NotADirectoryError
| ValueError
| RuntimeError
| OSError.

Inductive result (A : Type) : Type :=
| Ok (a : A)
| Raise (e : exn).

Arguments Ok {A} a.
Arguments Raise {A} e.

Definition result_bind {A B : Type} (r : result A) (k : A -> result B) : result B :=
  match r with
  | Ok a => k a
  | Raise e => Raise e
  end.

(** A [pathlib.Path], as the components below the root; the root is []. *)
Definition Path : Type := list string.

Definition parent (p : Path) : Path := removelast p.

Definition path_eqb (p q : Path) : bool :=
  if list_eq_dec string_dec p q then true else false.

Inductive Node : Type :=
| Dir
| File (content : string).

Definition FileSystem : Type := Path -> option Node.

(** The root is always there, and is a directory. *)
Definition fs_lookup (fs : FileSystem) (p : Path) : option Node :=
  match p with
  | [] => Some Dir
  | _ :: _ => fs p
  end.

Definition fs_set (fs : FileSystem) (p : Path) (n : Node) : FileSystem :=
  fun q => if path_eqb q p then Some n else fs q.

Record World : Type := {
  files : FileSystem;
  (** what was printed with [file=sys.stderr], oldest first *)
  stderr : list string;
  (** the [from_pretrained] calls made so far, oldest first *)
  loaded : list string
}.

(** Computations that read and change the world and may raise; what was
    done before an exception stays done. *)
Definition M (A : Type) : Type := World -> result A * World.

Definition ret {A : Type} (a : A) : M A := fun w => (Ok a, w).

Definition raise {A : Type} (e : exn) : M A := fun w => (Raise e, w).

Definition bind {A B : Type} (m : M A) (k : A -> M B) : M B :=
  fun w =>
    match m w with
    | (Ok a, w') => k a w'
    | (Raise e, w') => (Raise e, w')
    end.

Definition lift {A : Type} (r : result A) : M A := fun w => (r, w).

Declare Scope world_scope.
Delimit Scope world_scope with world.
Notation "x <- m ;; k" := (bind m (fun x => k))
  (at level 61, m at next level, right associativity) : world_scope.
Notation "m ;; k" := (bind m (fun _ => k))
  (at level 61, right associativity) : world_scope.

Definition set_files (fs : FileSystem) (w : World) : World :=
  {| files := fs; stderr := stderr w; loaded := loaded w |}.

(** [print(msg, file=sys.stderr)] *)
Definition print_err (msg : string) : M unit :=
  fun w => (Ok tt, {| files := files w; stderr := stderr w ++ [msg]; loaded := loaded w |}).

Definition note_load (what : string) : M unit :=
  fun w => (Ok tt, {| files := files w; stderr := stderr w; loaded := loaded w ++ [what] |}).

(** [path.mkdir(parents=True, exist_ok=True)]: the components of [todo] are
    created below [done] one after the other, those that are directories
    already being kept. *)
Fixpoint mkdir_from (done : Path) (todo : list string) : M unit :=
  match todo with
  | [] => ret tt
  | c :: rest =>
      let p := done ++ [c] in
      fun w =>
        match files w p with
        | Some Dir => mkdir_from p rest w
        | Some (File _) =>
            (Raise (if nonempty rest then NotADirectoryError else FileExistsError), w)
        | None => mkdir_from p rest (set_files (fs_set (files w) p Dir) w)
        end
  end.

Definition mkdir_parents (p : Path) : M unit := mkdir_from [] p.

(** [path.open("r")] followed by reading the whole text. *)
Definition read_text (p : Path) : M string :=
  fun w =>
    match fs_lookup (files w) p with
    | Some (File content) => (Ok content, w)
    | Some Dir => (Raise IsADirectoryError, w)
    | None => (Raise FileNotFoundError, w)
    end.

(** [path.open("w")]: the file is created, or emptied when it exists. *)
Definition open_w (p : Path) : M unit :=
  fun w =>
    match fs_lookup (files w) (parent p) with
    | Some Dir =>
        match fs_lookup (files w) p with
        | Some Dir => (Raise IsADirectoryError, w)
        | _ => (Ok tt, set_files (fs_set (files w) p (File "")) w)
        end
    | Some (File _) => (Raise NotADirectoryError, w)
    | None => (Raise FileNotFoundError, w)
    end.

(** [handle.write(s)] on the handle opened at [p]. *)
Definition handle_write (p : Path) (s : string) : M unit :=
  fun w =>
    match files w p with
    | Some (File content) => (Ok tt, set_files (fs_set (files w) p (File (content ++ s))) w)
    | _ => (Raise OSError, w)
    end.

(** ** Strings *)

Definition LF : ascii := "010"%char.
Definition CR : ascii := "013"%char.
Definition newline : string := String LF "".

(** [str.isspace] on one character. *)
Definition isspace (c : ascii) : bool :=
  let n := N_of_ascii c in
  ((9 <=? n) && (n <=? 13) || (28 <=? n) && (n <=? 32) || (n =? 133) || (n =? 160))%N.

Fixpoint lstrip (s : string) : string :=
  match s with
  | EmptyString => EmptyString
  | String c s' => if isspace c then lstrip s' else s
  end.

Fixpoint rstrip (s : string) : string :=
  match s with
  | EmptyString => EmptyString
  | String c s' =>
      match rstrip s' with
      | EmptyString => if isspace c then EmptyString else String c EmptyString
      | r => String c r
      end
  end.

(** [str.strip()] *)
Definition strip (s : string) : string := rstrip (lstrip s).

(** Truthiness of a string. *)
Definition str_truthy (s : string) : bool :=
  match s with
  | EmptyString => false
  | String _ _ => true
  end.

(** [str(n)] *)
Definition str_int (n : Z) : string := NilZero.string_of_int (Z.to_int n).

(** The lines a text-mode handle yields ([newline=None]): a line ends at a
    line feed, a carriage return or the two in a row, each read as "\n";
    the last line may lack it. *)
Fixpoint file_lines (s : string) : list string :=
  match s with
  | EmptyString => []
  | String c rest =>
      if Ascii.eqb c LF then newline :: file_lines rest
      else if Ascii.eqb c CR then
        match rest with
        | String c' rest' =>
            if Ascii.eqb c' LF then newline :: file_lines rest'
            else newline :: file_lines rest
        | EmptyString => [newline]
        end
      else
        match file_lines rest with
        | [] => [String c ""]
        | line :: lines => String c line :: lines
        end
  end.

(** ** The model, the libraries and the machine *)

Record Model : Type := {
  (** the logits of the forward pass for one row of the batch:
      [seq_len] rows of [vocab] logits *)
  forward : Encoding -> list (list pyfloat)
}.

Record EncodeConfig : Type := {
  cfg_model_name : string;
  cfg_sequence_length : Z;
  cfg_batch_size : Z;
  cfg_top_k : Z;
  cfg_prune_threshold : pyfloat;
  cfg_with_labels : bool;
  cfg_device : string;
  cfg_hf_token : option string
}.

Record GoldenRow : Type := {
  row_id : string;
  row_text : string;
  row_indices : list Z;
  row_values : list pyfloat;
  row_labels : list string
}.

Record Settings : Type := {
  set_sequence_length : Z;
  set_batch_size : Z;
  set_top_k : Z;
  set_prune_threshold : pyfloat;
  set_with_labels : bool;
  set_device : string
}.

Record Metadata : Type := {
  generated_at_utc : string;
  generator : string;
  source_type : string;
  model_repo : string;
  row_count : Z;
  dataset_digest_sha256 : string;
  settings : Settings;
  request_payload_texts : string;
  response_shape : string
}.

Record Runtime : Type := {
  (** [torch.cuda.is_available()] *)
  cuda_is_available : bool;
  (** [hasattr(torch.backends, "mps")] *)
  backends_has_mps : bool;
  (** [torch.backends.mps.is_available()] *)
  mps_is_available : bool;
  (** [os.environ] *)
  environ : string -> option string;
  (** [AutoTokenizer.from_pretrained(name, token=...)] *)
  tokenizer_from_pretrained : string -> option string -> result Tokenizer;
  (** [AutoModelForMaskedLM.from_pretrained(name, token=...)] *)
  model_from_pretrained : string -> option string -> result Model;
  (** [model.to(device)] *)
  model_to : Model -> string -> result Model;
  (** [torch.log1p] on one element *)
  log1p : pyfloat -> pyfloat;
  (** [json.dumps(row, ensure_ascii=False)] *)
  json_dumps : GoldenRow -> string;
  (** the text [json.dump(metadata, handle, indent=2, ensure_ascii=False)] writes *)
  json_dump : Metadata -> string;
  (** [hashlib.sha256(data).hexdigest()] *)
  sha256_hexdigest : string -> string;
  (** [datetime.now(timezone.utc).isoformat()] *)
  now_utc_isoformat : string
}.

(** ** load_texts *)

Definition load_line (texts : list string) (line : string) : list string :=
  let text := strip line in
  if str_truthy text then texts ++ [text] else texts.

Definition load_texts (inline_texts : list string) (texts_file : option Path)
    : M (list string) :=
  let texts := inline_texts in
  match texts_file with
  | Some path =>
      (content <- read_text path ;;
       ret (fold_left load_line (file_lines content) texts))%world
  | None => ret texts
  end.

(** ** resolve_device *)

Definition resolve_device (rt : Runtime) (device_arg : string) : string :=
  if negb (device_arg =? "auto")%string then device_arg
  else if cuda_is_available rt then "cuda"%string
  else if backends_has_mps rt && mps_is_available rt then "mps"%string
  else "cpu"%string.

(** ** batched *)

(** [range(0, stop, step)] *)
Definition range0 (stop step : Z) : result (list Z) :=
  if step =? 0 then Raise ValueError
  else if step <? 0 then Ok []
  else Ok (map (fun i => Z.of_nat i * step) (seq 0 (Z.to_nat ((stop + step - 1) / step)))).

(** The bound of a slice, brought into [0, len]. *)
Definition slice_bound (len i : Z) : Z :=
  if i <? 0 then Z.max 0 (i + len) else Z.min i len.

(** [items[lo:hi]] *)
Definition slice {A : Type} (items : list A) (lo hi : Z) : list A :=
  let len := Z.of_nat (length items) in
  let a := slice_bound len lo in
  let b := slice_bound len hi in
  firstn (Z.to_nat (b - a)) (skipn (Z.to_nat a) items).

Definition batched (items : list string) (batch_size : Z) : result (list (list string)) :=
  result_bind (range0 (Z.of_nat (length items)) batch_size)
    (fun starts => Ok (map (fun start => slice items start (start + batch_size)) starts)).

(** ** encode_batch_sparse *)

(** [torch.relu] on one element. *)
Definition relu (x : pyfloat) : pyfloat := Qmax 0 x.

(** Element-wise combination of two sequences of the same length. *)
Fixpoint map2 {A B C : Type} (f : A -> B -> C) (l : list A) (l' : list B) : list C :=
  match l, l' with
  | x :: xs, y :: ys => f x y :: map2 f xs ys
  | _, _ => []
  end.

(** [transformed * attention_mask.unsqueeze(-1)] for one row of the batch:
    every logit of a position is multiplied by the mask of the position. *)
Definition apply_mask (transformed : list (list pyfloat)) (mask : list Z)
    : list (list pyfloat) :=
  map2 (fun row m => map (fun x => (x * inject_Z m)%Q) row) transformed mask.

(** [masked.max(dim=1).values] for one row of the batch: the element-wise
    maximum over the positions; torch refuses an empty axis. *)
Definition max_over_positions (masked : list (list pyfloat)) : result (list pyfloat) :=
  match masked with
  | [] => Raise RuntimeError
  | first :: others => Ok (fold_left (map2 Qmax) others first)
  end.

Fixpoint sequence_results {A : Type} (l : list (result A)) : result (list A) :=
  match l with
  | [] => Ok []
  | r :: rs =>
      result_bind r (fun a => result_bind (sequence_results rs) (fun l' => Ok (a :: l')))
  end.

(** Lines 148-161: the dense rows of a batch, [batch] rows of [vocab] values. *)
Definition dense_rows (rt : Runtime) (texts : list string) (tokenizer : Tokenizer)
    (model : Model) (cfg : EncodeConfig) : result (list (list pyfloat)) :=
  let tokenized := map (fun t => tokenize tokenizer t (cfg_sequence_length cfg)) texts in
  let logits := map (forward model) tokenized in
  let transformed := map (map (map (fun x => log1p rt (relu x)))) logits in
  let masked := map2 apply_mask transformed (map attention_mask tokenized) in
  sequence_results (map max_over_positions masked).

Definition encode_batch_sparse (rt : Runtime) (texts : list string) (tokenizer : Tokenizer)
    (model : Model) (cfg : EncodeConfig) : result (list SparseVector) :=
  result_bind (dense_rows rt texts tokenizer model cfg)
    (fun dense =>
       Ok (map (fun row =>
                  dense_row_to_sparse row tokenizer (cfg_top_k cfg)
                    (cfg_prune_threshold cfg) (cfg_with_labels cfg))
               dense)).

(** ** write_jsonl, sha256_file, write_metadata *)

(** A [for] loop whose body acts on the world. *)
Fixpoint for_each {A : Type} (l : list A) (body : A -> M unit) : M unit :=
  match l with
  | [] => ret tt
  | x :: xs => (body x ;; for_each xs body)%world
  end.

Definition write_jsonl (rt : Runtime) (path : Path) (rows : list GoldenRow) : M unit :=
  (mkdir_parents (parent path) ;;
   open_w path ;;
   for_each rows (fun row =>
     handle_write path (json_dumps rt row) ;;
     handle_write path newline))%world.

(** The chunks read from the file are fed to one digest, which is the
    digest of the whole content. *)
Definition sha256_file (rt : Runtime) (path : Path) : M string :=
  (content <- read_text path ;;
   ret (sha256_hexdigest rt content))%world.

Definition write_metadata (rt : Runtime) (path : Path) (metadata : Metadata) : M unit :=
  (mkdir_parents (parent path) ;;
   open_w path ;;
   handle_write path (json_dump rt metadata) ;;
   handle_write path newline)%world.

(** ** main *)

Record Args : Type := {
  args_text : list string;
  args_texts_file : option Path;
  args_output_jsonl : Path;
  args_metadata_path : option Path;
  args_model_name : string;
  args_sequence_length : Z;
  args_batch_size : Z;
  args_top_k : Z;
  args_prune_threshold : pyfloat;
  args_with_labels : bool;
  args_device : string;
  args_hf_token_env : string
}.

(** [os.getenv(name, default)] *)
Definition getenv (rt : Runtime) (name default : string) : string :=
  match environ rt name with
  | Some value => value
  | None => default
  end.

(** Line 253: [os.getenv(args.hf_token_env, "").strip() or None]. *)
Definition hf_token_from_env (rt : Runtime) (hf_token_env : string) : option string :=
  let token := strip (getenv rt hf_token_env "") in
  if str_truthy token then Some token else None.

(** [str(path)] *)
Definition str_path (p : Path) : string :=
  match p with
  | [] => "/"%string
  | _ :: _ => fold_left (fun acc c => (acc ++ "/" ++ c)%string) p ""%string
  end.

(** Lines 276-283: one more row, numbered after those already there. *)
Definition add_row (rows : list GoldenRow) (item : string * SparseVector) : list GoldenRow :=
  let '(text, sparse) := item in
  rows ++ [ {| row_id := ("s" ++ str_int (Z.of_nat (length rows) + 1))%string;
               row_text := text;
               row_indices := indices sparse;
               row_values := values sparse;
               row_labels := labels sparse |} ].

(** Lines 272-283: the loop over [enumerate(batches, start=i)]. *)
Fixpoint encode_batches (rt : Runtime) (tokenizer : Tokenizer) (model : Model)
    (cfg : EncodeConfig) (i : Z) (batches : list (list string)) (rows : list GoldenRow)
    : M (list GoldenRow) :=
  match batches with
  | [] => ret rows
  | batch :: rest =>
      (print_err ("Encoding batch " ++ str_int i ++ " ("
                  ++ str_int (Z.of_nat (length batch)) ++ " docs)")%string ;;
       sparse_vectors <- lift (encode_batch_sparse rt batch tokenizer model cfg) ;;
       encode_batches rt tokenizer model cfg (i + 1) rest
         (fold_left add_row (combine batch sparse_vectors) rows))%world
  end.

(** Lines 271-283: the rows of the run. *)
Definition golden_rows (rt : Runtime) (tokenizer : Tokenizer) (model : Model)
    (cfg : EncodeConfig) (texts : list string) : M (list GoldenRow) :=
  (batches <- lift (batched texts (cfg_batch_size cfg)) ;;
   encode_batches rt tokenizer model cfg 1 batches [])%world.

Definition main (rt : Runtime) (args : Args) : M Z :=
  (texts <- load_texts (args_text args) (args_texts_file args) ;;
   if negb (nonempty texts) then
     print_err "error: provide at least one --text or --texts-file with non-empty lines" ;;
     ret 2
   else if args_sequence_length args <=? 0 then
     print_err "error: --sequence-length must be > 0" ;;
     ret 2
   else if args_batch_size args <=? 0 then
     print_err "error: --batch-size must be > 0" ;;
     ret 2
   else if args_top_k args <? 0 then
     print_err "error: --top-k must be >= 0" ;;
     ret 2
   else if Qlt_bool (args_prune_threshold args) 0 then
     print_err "error: --prune-threshold must be >= 0" ;;
     ret 2
   else
     let device := resolve_device rt (args_device args) in
     let hf_token := hf_token_from_env rt (args_hf_token_env args) in
     let cfg := {| cfg_model_name := args_model_name args;
                   cfg_sequence_length := args_sequence_length args;
                   cfg_batch_size := args_batch_size args;
                   cfg_top_k := args_top_k args;
                   cfg_prune_threshold := args_prune_threshold args;
                   cfg_with_labels := args_with_labels args;
                   cfg_device := device;
                   cfg_hf_token := hf_token |} in
     print_err ("Loading tokenizer/model: " ++ cfg_model_name cfg)%string ;;
     note_load "tokenizer" ;;
     tokenizer <- lift (tokenizer_from_pretrained rt (cfg_model_name cfg) (cfg_hf_token cfg)) ;;
     note_load "model" ;;
     model <- lift (model_from_pretrained rt (cfg_model_name cfg) (cfg_hf_token cfg)) ;;
     model <- lift (model_to rt model (cfg_device cfg)) ;;
     rows <- golden_rows rt tokenizer model cfg texts ;;
     write_jsonl rt (args_output_jsonl args) rows ;;
     digest <- sha256_file rt (args_output_jsonl args) ;;
     let metadata_path :=
       match args_metadata_path args with
       | Some p => p
       | None => parent (args_output_jsonl args) ++ ["metadata.json"%string]
       end in
     let metadata :=
       {| generated_at_utc := now_utc_isoformat rt;
          generator := "local:tools/splade_generate_golden.py";
          source_type := "local_transformers";
          model_repo := cfg_model_name cfg;
          row_count := Z.of_nat (length rows);
          dataset_digest_sha256 := digest;
          settings := {| set_sequence_length := cfg_sequence_length cfg;
                         set_batch_size := cfg_batch_size cfg;
                         set_top_k := cfg_top_k cfg;
                         set_prune_threshold := cfg_prune_threshold cfg;
                         set_with_labels := cfg_with_labels cfg;
                         set_device := cfg_device cfg |};
          request_payload_texts := "batch_of_strings";
          response_shape := "vectors[{indices,values,labels}]" |} in
     write_metadata rt metadata_path metadata ;;
     print_err ("Wrote JSONL: " ++ str_path (args_output_jsonl args))%string ;;
     print_err ("Wrote metadata: " ++ str_path metadata_path)%string ;;
     print_err ("Digest (SHA-256): " ++ digest)%string ;;
     ret 0)%world.

(** * The vocabulary of the properties *)

(** ** Pairs and pruning *)

Definition idx_lt (a b : Z * pyfloat) : Prop := fst a < fst b.

Definition survives (prune_threshold : pyfloat) (item : Z * pyfloat) : bool :=
  negb (Qle_bool (snd item) prune_threshold).

(** The pairs a sparse vector holds, in its order. *)
Definition kept_pairs (sv : SparseVector) : list (Z * pyfloat) :=
  combine (indices sv) (values sv).

Definition final_pairs (row : list pyfloat) (top_k : Z) (t : pyfloat) : list (Z * pyfloat) :=
  sort_by Z.ltb fst (select_top_k top_k (prune_pairs row t)).

(** ** Dense rows *)

(** The term of one position in the maximum:
    [attention_mask(p) * log(1 + max(0, logit(p, d)))]. *)
Definition position_term (rt : Runtime) (logits : list (list pyfloat)) (mask : list Z)
    (d p : nat) : Q :=
  (inject_Z (nth p mask 0%Z) * log1p rt (Qmax 0 (nth d (nth p logits []) 0)))%Q.

(** A tensor of [vocab] logits for each of the positions the mask has,
    of which there is at least one. *)
Definition well_shaped (vocab : nat) (logits : list (list pyfloat)) (mask : list Z) : Prop :=
  logits <> [] /\ length logits = length mask /\
  Forall (fun row => length row = vocab) logits.

(** Lines 157-161 for one row of the batch. *)
Definition dense_of_doc (rt : Runtime) (logits : list (list pyfloat)) (mask : list Z)
    : result (list pyfloat) :=
  max_over_positions
    (apply_mask (map (map (fun x => log1p rt (relu x))) logits) mask).

Definition dense_of_text (rt : Runtime) (tokenizer : Tokenizer) (model : Model)
    (cfg : EncodeConfig) (text : string) : result (list pyfloat) :=
  let enc := tokenize tokenizer text (cfg_sequence_length cfg) in
  dense_of_doc rt (forward model enc) (attention_mask enc).

(** The column of one dimension in the masked tensor of a row of the batch. *)
Definition masked_column (rt : Runtime) (logits : list (list pyfloat)) (mask : list Z)
    (d : nat) : list Q :=
  map2 (fun row m => (log1p rt (relu (nth d row 0)) * inject_Z m)%Q) logits mask.

(** ** Rows *)

(** The sparse vector of one text. *)
Definition encode_text (rt : Runtime) (tokenizer : Tokenizer) (model : Model)
    (cfg : EncodeConfig) (text : string) : result SparseVector :=
  result_bind (dense_of_text rt tokenizer model cfg text)
    (fun row => Ok (dense_row_to_sparse row tokenizer (cfg_top_k cfg)
                      (cfg_prune_threshold cfg) (cfg_with_labels cfg))).

(** The row of the document at position [n] (counting from zero). *)
Definition numbered_row (n : Z) (item : string * SparseVector) : GoldenRow :=
  {| row_id := ("s" ++ str_int (n + 1))%string;
     row_text := fst item;
     row_indices := indices (snd item);
     row_values := values (snd item);
     row_labels := labels (snd item) |}.

Definition numbered_rows (start : Z) (items : list (string * SparseVector)) : list GoldenRow :=
  map (fun entry => numbered_row (fst entry) (snd entry)) (enumerate_from start items).

(** The same settings with another batch size. *)
Definition with_batch_size (cfg : EncodeConfig) (batch_size : Z) : EncodeConfig :=
  {| cfg_model_name := cfg_model_name cfg;
     cfg_sequence_length := cfg_sequence_length cfg;
     cfg_batch_size := batch_size;
     cfg_top_k := cfg_top_k cfg;
     cfg_prune_threshold := cfg_prune_threshold cfg;
     cfg_with_labels := cfg_with_labels cfg;
     cfg_device := cfg_device cfg;
     cfg_hf_token := cfg_hf_token cfg |}.

(** ** Whitespace at the ends of a string *)

(** Only whitespace, or nothing at all. *)
Fixpoint all_space (s : string) : bool :=
  match s with
  | EmptyString => true
  | String c s' => isspace c && all_space s'
  end.

(** The first character, if there is one, is no whitespace. *)
Definition starts_tight (s : string) : bool :=
  match s with
  | EmptyString => true
  | String c _ => negb (isspace c)
  end.

(** The last character, if there is one, is no whitespace. *)
Fixpoint ends_tight (s : string) : bool :=
  match s with
  | EmptyString => true
  | String c EmptyString => negb (isspace c)
  | String _ s' => ends_tight s'
  end.

(** [t] is [s] without the whitespace at its two ends. *)
Definition trimmed_of (s t : string) : Prop :=
  exists l r : string,
    s = (l ++ t ++ r)%string /\ all_space l = true /\ all_space r = true /\
    starts_tight t = true /\ ends_tight t = true.

(** ** Effects on the file system *)

(** [q] is a directory above [path], the root apart. *)
Definition dir_above (q path : Path) : Prop :=
  q <> [] /\ exists rest, rest <> [] /\ path = q ++ rest.

(** From [w] to [w'] nothing changed but directories above [target] that
    were missing and were created. *)
Definition dirs_added (target : Path) (w w' : World) : Prop :=
  stderr w' = stderr w /\ loaded w' = loaded w /\
  forall q, q <> target ->
    files w' q = files w q \/
    (dir_above q target /\ files w q = None /\ files w' q = Some Dir).

(** From [w] to [w'] the file at [path] got the content [text], whatever
    was there before, and nothing else changed but the directories created
    above it. *)
Definition written (path : Path) (text : string) (w w' : World) : Prop :=
  files w' path = Some (File text) /\ dirs_added path w w'.

(** The file at [path] can be written: no directory is in its place and no
    file is in the place of a directory above it. *)
Definition writable (path : Path) (w : World) : Prop :=
  fs_lookup (files w) path <> Some Dir /\
  forall q, dir_above q path -> forall content, files w q <> Some (File content).

(** The text of a JSONL file: one line per row. *)
Definition jsonl_text (rt : Runtime) (rows : list GoldenRow) : string :=
  fold_right (fun row rest => (json_dumps rt row ++ newline ++ rest)%string) ""%string rows.

(** Writes through a handle change the file of the handle only. *)
Definition appended (path : Path) (content s : string) (w w' : World) : Prop :=
  files w' path = Some (File (content ++ s)) /\
  (forall q, q <> path -> files w' q = files w q) /\
  stderr w' = stderr w /\ loaded w' = loaded w.

(** A writer makes the directories, opens the file for writing and writes
    through the handle. *)
Definition writer (path : Path) (body : M unit) : M unit :=
  bind (mkdir_parents (parent path)) (fun _ => bind (open_w path) (fun _ => body)).

Definition writes_text (path : Path) (text : string) (body : M unit) : Prop :=
  forall w, files w path = Some (File "") ->
    exists w', body w = (Ok tt, w') /\ appended path "" text w w'.

(** ** Runs of [main] *)

(** The validation of lines 236-250 fails. *)
Definition invalid_input (args : Args) (texts : list string) : Prop :=
  texts = [] \/ args_sequence_length args <= 0 \/ args_batch_size args <= 0 \/
  args_top_k args < 0 \/ (args_prune_threshold args < 0)%Q.

(** A computation leaves the log of loads as it is, or adds to it. *)
Definition keeps_log {A : Type} (m : M A) : Prop :=
  forall w, exists l, loaded (snd (m w)) = loaded w ++ l.

(** A computation does not touch the log of loads. *)
Definition same_log {A : Type} (m : M A) : Prop :=
  forall w, loaded (snd (m w)) = loaded w.

(** The value of a computation that returns has the property [P]. *)
Definition returns_only {A : Type} (P : A -> Prop) (m : M A) : Prop :=
  forall w a, fst (m w) = Ok a -> P a.

(** ** A small instance *)

(** The character codes of a text. *)
Fixpoint char_codes (s : string) : list Z :=
  match s with
  | EmptyString => []
  | String c s' => Z.of_N (N_of_ascii c) :: char_codes s'
  end.

(** A tokenizer that takes characters for tokens: the ids are the character
    codes, cut or padded with 0 to the sequence length, and the mask tells
    the characters from the padding. *)
Definition toy_tokenizer : Tokenizer :=
  {| tokenize := fun text n =>
       let codes := char_codes text in
       let len := Z.to_nat n in
       {| input_ids := firstn len (codes ++ repeat 0 len);
          attention_mask := firstn len (map (fun _ => 1) codes ++ repeat 0 len) |};
     id_to_token := fun id => ("tok" ++ str_int id)%string |}.

(** A model with a vocabulary of three. *)
Definition toy_model : Model :=
  {| forward := fun enc =>
       map (fun id => [(inject_Z (id - 98) / 4)%Q; (1 # 2)%Q; (-1)%Q]) (input_ids enc) |}.

(** A machine without accelerators and without token, with [x / (1 + x)]
    standing for [log1p]. *)
Definition toy_runtime : Runtime :=
  {| cuda_is_available := false;
     backends_has_mps := true;
     mps_is_available := false;
     environ := fun _ => None;
     tokenizer_from_pretrained := fun _ _ => Ok toy_tokenizer;
     model_from_pretrained := fun _ _ => Ok toy_model;
     model_to := fun model _ => Ok model;
     log1p := fun x => (x / (1 + x))%Q;
     json_dumps := fun row => (row_id row ++ ":" ++ row_text row)%string;
     json_dump := fun metadata => dataset_digest_sha256 metadata;
     sha256_hexdigest := fun data => str_int (Z.of_nat (String.length data));
     now_utc_isoformat := "2024-01-01T00:00:00+00:00" |}.

Definition toy_cfg : EncodeConfig :=
  {| cfg_model_name := "toy";
     cfg_sequence_length := 3;
     cfg_batch_size := 2;
     cfg_top_k := 2;
     cfg_prune_threshold := 0%Q;
     cfg_with_labels := true;
     cfg_device := "cpu";
     cfg_hf_token := None |}.

Definition toy_args : Args :=
  {| args_text := ["ab"%string];
     args_texts_file := Some ["in"; "texts.txt"]%string;
     args_output_jsonl := ["out"; "v1"; "golden.jsonl"]%string;
     args_metadata_path := None;
     args_model_name := "toy";
     args_sequence_length := 3;
     args_batch_size := 2;
     args_top_k := 2;
     args_prune_threshold := 0%Q;
     args_with_labels := true;
     args_device := "auto";
     args_hf_token_env := "HF_TOKEN" |}.

(** A world with the input file and an old output file. *)
Definition toy_world : World :=
  {| files := fun p =>
       if path_eqb p ["in"%string] then Some Dir
       else if path_eqb p ["in"; "texts.txt"]%string
       then Some (File ("c" ++ newline ++ newline ++ " de " ++ newline)%string)
       else if path_eqb p ["out"%string] then Some Dir
       else None;
     stderr := [];
     loaded := [] |}.

Definition toy_texts : list string := ["ab"; "c"; "de"]%string.

(** ** Paths a computation may change *)

(** A computation changes the file system at the paths of [S] only. *)
Definition confined {A : Type} (S : Path -> Prop) (m : M A) : Prop :=
  forall w q, ~ S q -> files (snd (m w)) q = files w q.

(** The paths a writer of [path] may change: the file and the directories
    above it. *)
Definition writer_paths (path : Path) (q : Path) : Prop :=
  q = path \/ dir_above q path.

(** ** The file read chunk by chunk *)






(** ** Progress lines *)

(** The progress line of batch number [i]. *)
Definition progress_line (i : Z) (batch : list string) : string :=
  ("Encoding batch " ++ str_int i ++ " ("
   ++ str_int (Z.of_nat (length batch)) ++ " docs)")%string.

(** The progress lines of the batches, numbered from [i]. *)
Definition progress_lines (i : Z) (batches : list (list string)) : list string :=
  map (fun entry => progress_line (fst entry) (snd entry)) (enumerate_from i batches).

(** ** The paths of a run *)

(** The metadata path of a run: the one given, or [metadata.json] beside
    the JSONL file (lines 288-290). *)
Definition metadata_path_of (args : Args) : Path :=
  match args_metadata_path args with
  | Some p => p
  | None => parent (args_output_jsonl args) ++ ["metadata.json"%string]
  end.

(** The paths a run may change: its two output files and the directories
    above them. *)
Definition main_paths (args : Args) (q : Path) : Prop :=
  writer_paths (args_output_jsonl args) q \/ writer_paths (metadata_path_of args) q.

(** ** The settings and the metadata of a run *)

(** The settings of a run (lines 252-263). *)
Definition encode_config (rt : Runtime) (args : Args) : EncodeConfig :=
  {| cfg_model_name := args_model_name args;
     cfg_sequence_length := args_sequence_length args;
     cfg_batch_size := args_batch_size args;
     cfg_top_k := args_top_k args;
     cfg_prune_threshold := args_prune_threshold args;
     cfg_with_labels := args_with_labels args;
     cfg_device := resolve_device rt (args_device args);
     cfg_hf_token := hf_token_from_env rt (args_hf_token_env args) |}.

(** The metadata of a run (lines 292-311). *)
Definition metadata_of (rt : Runtime) (args : Args) (rows : list GoldenRow)
    (digest : string) : Metadata :=
  let cfg := encode_config rt args in
  {| generated_at_utc := now_utc_isoformat rt;
     generator := "local:tools/splade_generate_golden.py";
     source_type := "local_transformers";
     model_repo := cfg_model_name cfg;
     row_count := Z.of_nat (length rows);
     dataset_digest_sha256 := digest;
     settings := {| set_sequence_length := cfg_sequence_length cfg;
                    set_batch_size := cfg_batch_size cfg;
                    set_top_k := cfg_top_k cfg;
                    set_prune_threshold := cfg_prune_threshold cfg;
                    set_with_labels := cfg_with_labels cfg;
                    set_device := cfg_device cfg |};
     request_payload_texts := "batch_of_strings";
     response_shape := "vectors[{indices,values,labels}]" |}.

(** ** Clean texts and their file *)

(** No line feed and no carriage return. *)
Fixpoint no_line_break (s : string) : bool :=
  match s with
  | EmptyString => true
  | String c s' => negb (Ascii.eqb c LF) && negb (Ascii.eqb c CR) && no_line_break s'
  end.

(** A text as the loader gives it: something, on one line, without
    whitespace at its ends. *)
Definition clean_text (text : string) : bool :=
  str_truthy text && starts_tight text && ends_tight text && no_line_break text.

(** A texts file with one text per line. *)
Definition texts_file_of (texts : list string) : string :=
  fold_right (fun text rest => (text ++ newline ++ rest)%string) ""%string texts.

(** A line of a file is its body, without line break, and perhaps the line
    feed that ends it. *)
Definition line_shape (line : string) : Prop :=
  exists body, no_line_break body = true /\
               (line = body \/ line = (body ++ newline)%string).

(** ** Variants of the small instance *)

(** The machine of the instance when the model cannot be fetched. *)
Definition offline_runtime : Runtime :=
  {| cuda_is_available := false;
     backends_has_mps := true;
     mps_is_available := false;
     environ := fun _ => None;
     tokenizer_from_pretrained := fun _ _ => Ok toy_tokenizer;
     model_from_pretrained := fun _ _ => Raise OSError;
     model_to := fun model _ => Ok model;
     log1p := fun x => (x / (1 + x))%Q;
     json_dumps := fun row => (row_id row ++ ":" ++ row_text row)%string;
     json_dump := fun metadata => dataset_digest_sha256 metadata;
     sha256_hexdigest := fun data => str_int (Z.of_nat (String.length data));
     now_utc_isoformat := "2024-01-01T00:00:00+00:00" |}.

(** A call with one inline text of two spaces and no texts file. *)
Definition blank_args : Args :=
  {| args_text := ["  "%string];
     args_texts_file := None;
     args_output_jsonl := ["out"; "v1"; "golden.jsonl"]%string;
     args_metadata_path := None;
     args_model_name := "toy";
     args_sequence_length := 3;
     args_batch_size := 2;
     args_top_k := 2;
     args_prune_threshold := 0%Q;
     args_with_labels := true;
     args_device := "auto";
     args_hf_token_env := "HF_TOKEN" |}.

Definition toy_output : Path := ["out"; "v1"; "golden.jsonl"]%string.

Definition toy_row : GoldenRow :=
  {| row_id := "s1"; row_text := "ab";
     row_indices := [0]; row_values := [1 # 2]%Q; row_labels := ["tok0"%string] |}.

(** * Properties *)

(** ** The sort *)

Section PySortFacts.
Context {A K : Type} (lt : K -> K -> bool) (key : A -> K).

Hypothesis lt_asym : forall a b, lt a b = true -> lt b a = false.
Hypothesis lt_negtrans :
  forall a b c, lt b a = false -> lt c b = false -> lt c a = false.

Lemma insert_by_perm (x : A) (l : list A) :
  Permutation (insert_by lt key x l) (x :: l).
Proof.
  induction l as [|y l IH]; simpl.
  - apply Permutation_refl.
  - destruct (lt (key y) (key x)).
    + apply perm_trans with (y :: x :: l).
      * now apply perm_skip.
      * apply perm_swap.
    + apply Permutation_refl.
Qed.

Lemma sort_by_perm (l : list A) : Permutation (sort_by lt key l) l.
Proof.
  induction l as [|x l IH]; simpl.
  - apply perm_nil.
  - apply perm_trans with (x :: sort_by lt key l).
    + apply insert_by_perm.
    + now apply perm_skip.
Qed.

Lemma insert_by_sorted (x : A) (l : list A) :
  StronglySorted (key_le lt key) l -> StronglySorted (key_le lt key) (insert_by lt key x l).
Proof.
  induction 1 as [|y l Hl IH Hy]; simpl.
  - constructor; [constructor | constructor].
  - destruct (lt (key y) (key x)) eqn:E.
    + constructor; [exact IH|].
      apply Forall_forall. intros z Hz.
      apply (Permutation_in _ (insert_by_perm x l)) in Hz.
      destruct Hz as [<- | Hz].
      * unfold key_le. now apply lt_asym.
      * rewrite Forall_forall in Hy. now apply Hy.
    + constructor.
      * now constructor.
      * constructor; [exact E|].
        rewrite Forall_forall in Hy |- *. intros z Hz.
        unfold key_le in *. apply lt_negtrans with (key y); auto.
Qed.

Lemma sort_by_sorted (l : list A) : StronglySorted (key_le lt key) (sort_by lt key l).
Proof.
  induction l as [|x l IH]; simpl.
  - constructor.
  - now apply insert_by_sorted.
Qed.


End PySortFacts.

(** ** Comparisons *)


Lemma Qlt_bool_false_iff (x y : Q) : Qlt_bool x y = false <-> (y <= x)%Q.
Proof.
  unfold Qlt_bool. destruct (Qcompare_spec x y) as [H | H | H];
    split; intros H'; try reflexivity; try discriminate; lra.
Qed.

Lemma Qle_bool_false_iff (x y : Q) : Qle_bool x y = false <-> (y < x)%Q.
Proof.
  split; intros H.
  - apply Qnot_le_lt. intros Hle. apply Qle_bool_iff in Hle. congruence.
  - destruct (Qle_bool x y) eqn:E; [|reflexivity].
    apply Qle_bool_iff in E. lra.
Qed.





Lemma Zltb_asym (a b : Z) : (a <? b) = true -> (b <? a) = false.
Proof. rewrite Z.ltb_lt, Z.ltb_ge. lia. Qed.

Lemma Zltb_negtrans (a b c : Z) :
  (b <? a) = false -> (c <? b) = false -> (c <? a) = false.
Proof. rewrite !Z.ltb_ge. lia. Qed.

(** ** Lists of pairs with increasing indices *)

Lemma enumerate_from_In {A : Type} (l : list A) (n i : Z) (v : A) :
  In (i, v) (enumerate_from n l) <->
  n <= i /\ nth_error l (Z.to_nat (i - n)) = Some v.
Proof.
  revert n. induction l as [|x xs IH]; intros n; simpl.
  - split; [tauto|]. intros [_ H]. now destruct (Z.to_nat (i - n)).
  - rewrite IH. split.
    + intros [H | [Hle H]].
      * inversion H; subst. rewrite Z.sub_diag. simpl. split; [lia | reflexivity].
      * replace (Z.to_nat (i - n)) with (S (Z.to_nat (i - (n + 1)))) by lia.
        split; [lia | exact H].
    + intros [Hle H]. destruct (Z.eq_dec i n) as [-> | Hne].
      * left. rewrite Z.sub_diag in H. simpl in H. congruence.
      * right. split; [lia|].
        replace (Z.to_nat (i - n)) with (S (Z.to_nat (i - (n + 1)))) in H by lia.
        exact H.
Qed.

Lemma enumerate_from_sorted {A : Type} (l : list A) (n : Z) :
  StronglySorted (fun a b : Z * A => fst a < fst b) (enumerate_from n l).
Proof.
  revert n. induction l as [|x xs IH]; intros n; simpl; constructor.
  - apply IH.
  - apply Forall_forall. intros [i v] Hin. apply enumerate_from_In in Hin. simpl. lia.
Qed.

Lemma StronglySorted_filter {A : Type} (R : A -> A -> Prop) (f : A -> bool) (l : list A) :
  StronglySorted R l -> StronglySorted R (filter f l).
Proof.
  induction 1 as [|x l Hl IH Hx]; simpl; [constructor|].
  destruct (f x); [|exact IH].
  constructor; [exact IH|].
  rewrite Forall_forall in Hx |- *. intros y Hy. apply filter_In in Hy. now apply Hx.
Qed.

(** ** Pruning *)

Lemma prune_fold (t : pyfloat) (l acc : list (Z * pyfloat)) :
  fold_left (prune_step t) l acc = acc ++ filter (survives t) l.
Proof.
  revert acc. induction l as [|[i v] l IH]; intros acc; simpl.
  - now rewrite app_nil_r.
  - rewrite IH. unfold survives. simpl. destruct (Qle_bool v t); simpl.
    + reflexivity.
    + now rewrite <- app_assoc.
Qed.

Lemma prune_pairs_filter (row : list pyfloat) (t : pyfloat) :
  prune_pairs row t = filter (survives t) (enumerate row).
Proof. unfold prune_pairs. now rewrite prune_fold. Qed.

Lemma prune_pairs_In (row : list pyfloat) (t : pyfloat) (i : Z) (v : pyfloat) :
  In (i, v) (prune_pairs row t) <->
  0 <= i /\ nth_error row (Z.to_nat i) = Some v /\ (t < v)%Q.
Proof.
  rewrite prune_pairs_filter, filter_In. unfold enumerate.
  rewrite enumerate_from_In, Z.sub_0_r. unfold survives. simpl.
  rewrite negb_true_iff, Qle_bool_false_iff. tauto.
Qed.

Lemma prune_pairs_sorted (row : list pyfloat) (t : pyfloat) :
  StronglySorted idx_lt (prune_pairs row t).
Proof.
  rewrite prune_pairs_filter. apply StronglySorted_filter.
  apply enumerate_from_sorted.
Qed.

(** ** Selection and the final order *)

Lemma combine_fst_snd {A B : Type} (l : list (A * B)) :
  combine (map fst l) (map snd l) = l.
Proof.
  induction l as [|[a b] l IH]; simpl; [reflexivity | now rewrite IH].
Qed.

Lemma kept_pairs_final (row : list pyfloat) (tok : Tokenizer) (top_k : Z)
    (t : pyfloat) (wl : bool) :
  kept_pairs (dense_row_to_sparse row tok top_k t wl) = final_pairs row top_k t.
Proof. unfold kept_pairs, dense_row_to_sparse. simpl. apply combine_fst_snd. Qed.

Lemma indices_final (row : list pyfloat) (tok : Tokenizer) (top_k : Z)
    (t : pyfloat) (wl : bool) :
  indices (dense_row_to_sparse row tok top_k t wl) = map fst (final_pairs row top_k t).
Proof. reflexivity. Qed.

Lemma idx_sorted_NoDup (l : list (Z * pyfloat)) :
  StronglySorted idx_lt l -> NoDup (map fst l).
Proof.
  induction 1 as [|x l Hl IH Hx]; simpl; constructor; [|exact IH].
  intros Hin. apply in_map_iff in Hin. destruct Hin as [y [Hy Hiny]].
  rewrite Forall_forall in Hx. specialize (Hx y Hiny). unfold idx_lt in Hx. lia.
Qed.


Lemma key_le_NoDup_lt (l : list (Z * pyfloat)) :
  StronglySorted (key_le Z.ltb fst) l -> NoDup (map fst l) ->
  StronglySorted Z.lt (map fst l).
Proof.
  induction 1 as [|x l Hl IH Hx]; simpl; intros Hnd; constructor.
  - apply IH. now inversion Hnd.
  - inversion Hnd as [|? ? Hnotin _]; subst.
    apply Forall_forall. intros j Hj.
    apply in_map_iff in Hj as Hj'. destruct Hj' as [y [<- Hy]].
    rewrite Forall_forall in Hx. specialize (Hx y Hy).
    unfold key_le in Hx. apply Z.ltb_ge in Hx.
    assert (fst x <> fst y) by (intros Heq; apply Hnotin; now rewrite Heq).
    lia.
Qed.

Lemma NoDup_firstn {A : Type} (n : nat) (l : list A) : NoDup l -> NoDup (firstn n l).
Proof.
  intros H. rewrite <- (firstn_skipn n l) in H. now apply NoDup_app_remove_r in H.
Qed.

Lemma In_firstn {A : Type} (n : nat) (l : list A) (x : A) :
  In x (firstn n l) -> In x l.
Proof.
  intros H. rewrite <- (firstn_skipn n l). apply in_or_app. now left.
Qed.

Lemma sort_topk_perm (l : list (Z * pyfloat)) :
  Permutation (sort_by tuple_lt topk_key l) l.
Proof. apply sort_by_perm. Qed.

Lemma select_top_k_In (top_k : Z) (l : list (Z * pyfloat)) (p : Z * pyfloat) :
  In p (select_top_k top_k l) -> In p l.
Proof.
  unfold select_top_k. destruct ((0 <? top_k) && (top_k <? Z.of_nat (length l))).
  - intros H. apply In_firstn in H.
    now apply (Permutation_in _ (sort_topk_perm l)).
  - trivial.
Qed.

Lemma select_top_k_NoDup (top_k : Z) (l : list (Z * pyfloat)) :
  NoDup (map fst l) -> NoDup (map fst (select_top_k top_k l)).
Proof.
  unfold select_top_k. destruct ((0 <? top_k) && (top_k <? Z.of_nat (length l))).
  - intros H. rewrite <- firstn_map. apply NoDup_firstn.
    apply Permutation_NoDup with (map fst l); [|exact H].
    apply Permutation_map. apply Permutation_sym. apply sort_topk_perm.
  - trivial.
Qed.

Lemma final_pairs_perm (row : list pyfloat) (top_k : Z) (t : pyfloat) :
  Permutation (final_pairs row top_k t) (select_top_k top_k (prune_pairs row t)).
Proof. apply sort_by_perm. Qed.

Lemma final_pairs_In (row : list pyfloat) (top_k : Z) (t : pyfloat) (p : Z * pyfloat) :
  In p (final_pairs row top_k t) -> In p (prune_pairs row t).
Proof.
  intros H. apply (Permutation_in _ (final_pairs_perm row top_k t)) in H.
  now apply select_top_k_In in H.
Qed.

Lemma final_pairs_NoDup (row : list pyfloat) (top_k : Z) (t : pyfloat) :
  NoDup (map fst (final_pairs row top_k t)).
Proof.
  apply Permutation_NoDup with (map fst (select_top_k top_k (prune_pairs row t))).
  - apply Permutation_map. apply Permutation_sym. apply final_pairs_perm.
  - apply select_top_k_NoDup. apply idx_sorted_NoDup. apply prune_pairs_sorted.
Qed.

Lemma final_pairs_increasing (row : list pyfloat) (top_k : Z) (t : pyfloat) :
  StronglySorted Z.lt (map fst (final_pairs row top_k t)).
Proof.
  apply key_le_NoDup_lt.
  - apply sort_by_sorted; [apply Zltb_asym | apply Zltb_negtrans].
  - apply final_pairs_NoDup.
Qed.





(** ** dense_row_to_sparse: the claims *)



(** C4. The data invariant of a sparse vector: its indices are strictly
    increasing, so without duplicates; there are as many values as indices;
    with labels requested and some index there are as many labels as
    indices, and otherwise there is no label. *)
Theorem C4_sparse_vector_invariant :
  forall (row : list pyfloat) (tokenizer : Tokenizer) (top_k : Z)
         (prune_threshold : pyfloat) (with_labels : bool),
    let sv := dense_row_to_sparse row tokenizer top_k prune_threshold with_labels in
    StronglySorted Z.lt (indices sv) /\
    NoDup (indices sv) /\
    length (indices sv) = length (values sv) /\
    (with_labels = true -> indices sv <> [] ->
       length (labels sv) = length (indices sv)) /\
    (with_labels = false \/ indices sv = [] -> labels sv = []).
Proof.
  intros row tok top_k t wl sv. unfold sv. rewrite indices_final.
  split; [apply final_pairs_increasing|].
  split; [apply final_pairs_NoDup|].
  unfold dense_row_to_sparse. simpl. fold (final_pairs row top_k t).
  split; [now rewrite !length_map|].
  split.
  - intros -> Hne. simpl.
    destruct (map fst (final_pairs row top_k t)) eqn:E; [contradiction|].
    simpl. unfold convert_ids_to_tokens. now rewrite length_map.
  - intros [-> | ->]; [reflexivity|]. now rewrite andb_false_r.
Qed.

(** ** encode_batch_sparse: the dense rows *)

Lemma map2_map_map {A B C D : Type} (f : B -> C -> D) (g : A -> B) (h : A -> C)
    (l : list A) :
  map2 f (map g l) (map h l) = map (fun x => f (g x) (h x)) l.
Proof. induction l as [|x l IH]; simpl; [reflexivity | now rewrite IH]. Qed.

Lemma length_map2 {A B C : Type} (f : A -> B -> C) (l : list A) (l' : list B) :
  length (map2 f l l') = Nat.min (length l) (length l').
Proof.
  revert l'. induction l as [|x l IH]; intros [|y l']; simpl; try reflexivity.
  now rewrite IH.
Qed.

Lemma nth_map2 {A B C : Type} (f : A -> B -> C) (l : list A) (l' : list B)
    (p : nat) (da : A) (db : B) (dc : C) :
  (p < length l)%nat -> (p < length l')%nat ->
  nth p (map2 f l l') dc = f (nth p l da) (nth p l' db).
Proof.
  revert l' p. induction l as [|x l IH]; intros [|y l'] [|p]; simpl; intros H1 H2;
    try lia; [reflexivity|]. apply IH; lia.
Qed.

Lemma dense_rows_per_text (rt : Runtime) (texts : list string) (tokenizer : Tokenizer)
    (model : Model) (cfg : EncodeConfig) :
  dense_rows rt texts tokenizer model cfg =
  sequence_results (map (dense_of_text rt tokenizer model cfg) texts).
Proof.
  unfold dense_rows. f_equal.
  rewrite !map_map, map2_map_map, map_map. reflexivity.
Qed.

Lemma fold_Qmax_ge_init (xs : list Q) (x : Q) : (x <= fold_left Qmax xs x)%Q.
Proof.
  revert x. induction xs as [|a xs IH]; intros x; simpl.
  - apply Qle_refl.
  - apply Qle_trans with (Qmax x a); [apply Q.le_max_l | apply IH].
Qed.

Lemma fold_Qmax_ge (xs : list Q) (x y : Q) :
  In y (x :: xs) -> (y <= fold_left Qmax xs x)%Q.
Proof.
  revert x. induction xs as [|a xs IH]; intros x; simpl.
  - intros [<- | []]. apply Qle_refl.
  - intros [<- | [<- | H]].
    + apply Qle_trans with (Qmax x a); [apply Q.le_max_l | apply fold_Qmax_ge_init].
    + apply Qle_trans with (Qmax x a); [apply Q.le_max_r | apply fold_Qmax_ge_init].
    + apply IH. now right.
Qed.

Lemma fold_Qmax_attained (xs : list Q) (x : Q) :
  exists y, In y (x :: xs) /\ (fold_left Qmax xs x == y)%Q.
Proof.
  revert x. induction xs as [|a xs IH]; intros x; simpl.
  - exists x. split; [now left | reflexivity].
  - destruct (IH (Qmax x a)) as [y [[<- | Hy] Heq]].
    + destruct (Q.max_dec x a) as [E | E].
      * exists x. split; [now left | now rewrite Heq].
      * exists a. split; [right; now left | now rewrite Heq].
    + exists y. split; [right; now right | exact Heq].
Qed.

Lemma fold_map2_Qmax (vocab : nat) (others : list (list Q)) (first : list Q) :
  length first = vocab ->
  Forall (fun row => length row = vocab) others ->
  length (fold_left (map2 Qmax) others first) = vocab /\
  forall d, (d < vocab)%nat ->
    nth d (fold_left (map2 Qmax) others first) 0%Q =
    fold_left Qmax (map (fun row => nth d row 0%Q) others) (nth d first 0%Q).
Proof.
  intros Hf Ho. revert first Hf.
  induction Ho as [|row others Hrow Ho IH]; intros first Hf; simpl.
  - split; [exact Hf | reflexivity].
  - assert (Hlen : length (map2 Qmax first row) = vocab)
      by (rewrite length_map2; lia).
    destruct (IH _ Hlen) as [IH1 IH2]. split; [exact IH1|].
    intros d Hd. rewrite (IH2 d Hd). f_equal.
    apply nth_map2; lia.
Qed.

Lemma masked_rows (rt : Runtime) (vocab : nat) (logits : list (list pyfloat))
    (mask : list Z) :
  Forall (fun row => length row = vocab) logits ->
  let masked := apply_mask (map (map (fun x => log1p rt (relu x))) logits) mask in
  Forall (fun row => length row = vocab) masked /\
  forall d, (d < vocab)%nat ->
    map (fun row => nth d row 0%Q) masked = masked_column rt logits mask d.
Proof.
  intros H. revert mask. unfold apply_mask, masked_column.
  induction H as [|row logits Hrow H IH]; intros mask; simpl.
  - split; [constructor | reflexivity].
  - destruct mask as [|m mask]; simpl; [split; [constructor | reflexivity]|].
    destruct (IH mask) as [IH1 IH2]. split.
    + constructor; [now rewrite !length_map | exact IH1].
    + intros d Hd. rewrite (IH2 d Hd). f_equal.
      rewrite map_map.
      rewrite (nth_indep _ 0%Q (log1p rt (relu 0) * inject_Z m)%Q)
        by (rewrite length_map; lia).
      apply (map_nth (fun x => (log1p rt (relu x) * inject_Z m)%Q)).
Qed.

Lemma masked_column_nth (rt : Runtime) (logits : list (list pyfloat)) (mask : list Z)
    (d p : nat) :
  (p < length logits)%nat -> length logits = length mask ->
  (nth p (masked_column rt logits mask d) 0 == position_term rt logits mask d p)%Q.
Proof.
  intros Hp Hlen. unfold masked_column, position_term.
  rewrite (nth_map2 _ logits mask p [] 0 0%Q) by lia.
  unfold relu. apply Qmult_comm.
Qed.



(** The dense row of one text is, in each dimension, the maximum of the
    terms of the positions. *)
Lemma dense_of_doc_spec (rt : Runtime) (vocab : nat) (logits : list (list pyfloat))
    (mask : list Z) :
  well_shaped vocab logits mask ->
  exists row,
    dense_of_doc rt logits mask = Ok row /\ length row = vocab /\
    forall d, (d < vocab)%nat ->
      (forall p, (p < length logits)%nat ->
         (position_term rt logits mask d p <= nth d row 0)%Q) /\
      (exists p, (p < length logits)%nat /\
         (nth d row 0 == position_term rt logits mask d p)%Q).
Proof.
  intros [Hne [Hlen Hrows]].
  pose proof (masked_rows rt vocab logits mask Hrows) as Hm. cbv zeta in Hm.
  unfold dense_of_doc.
  remember (apply_mask (map (map (fun x => log1p rt (relu x))) logits) mask)
    as masked eqn:E.
  destruct Hm as [Hm1 Hm2].
  assert (Hmlen : length masked = length logits).
  { rewrite E. unfold apply_mask. rewrite length_map2, length_map. lia. }
  destruct masked as [|first others].
  { destruct logits; [contradiction | discriminate]. }
  simpl. pose proof (Forall_inv Hm1) as Hfirst. pose proof (Forall_inv_tail Hm1) as Hothers.
  simpl in Hfirst.
  destruct (fold_map2_Qmax _ others first Hfirst Hothers) as [Hl Hnth].
  eexists. split; [reflexivity|]. split; [exact Hl|].
  intros d Hd. rewrite (Hnth d Hd).
  specialize (Hm2 d Hd). simpl in Hm2.
  set (col := masked_column rt logits mask d) in *.
  assert (Hcol : length col = length logits).
  { rewrite <- Hm2. simpl. rewrite length_map. exact Hmlen. }
  split.
  - intros p Hp. rewrite <- (masked_column_nth rt logits mask d p Hp Hlen).
    apply fold_Qmax_ge. fold col. change (In (nth p col 0%Q)
      (nth d first 0%Q :: map (fun row => nth d row 0%Q) others)).
    rewrite Hm2. apply nth_In. lia.
  - destruct (fold_Qmax_attained (map (fun row => nth d row 0%Q) others) (nth d first 0%Q))
      as [y [Hy Heq]].
    change (In y (nth d first 0%Q :: map (fun row => nth d row 0%Q) others)) in Hy.
    rewrite Hm2 in Hy. apply (In_nth _ _ 0%Q) in Hy. destruct Hy as [p [Hp Hy]].
    exists p. split; [lia|]. rewrite Heq, <- Hy.
    apply masked_column_nth; [lia | exact Hlen].
Qed.

Lemma sequence_results_Ok {A B : Type} (f : A -> result B) (l : list A) :
  (forall x, In x l -> exists y, f x = Ok y) ->
  exists ys,
    sequence_results (map f l) = Ok ys /\ length ys = length l /\
    forall n x, nth_error l n = Some x ->
      exists y, nth_error ys n = Some y /\ f x = Ok y.
Proof.
  induction l as [|a l IH]; intros H; simpl.
  - exists []. split; [reflexivity|]. split; [reflexivity|].
    intros [|n] x Hn; discriminate.
  - destruct (H a (or_introl eq_refl)) as [b Hb].
    destruct IH as [ys [Hys [Hlen Hnth]]].
    { intros x Hx. apply H. now right. }
    exists (b :: ys). rewrite Hb, Hys. simpl.
    split; [reflexivity|]. split; [now rewrite Hlen|].
    intros [|n] x Hn; simpl in *.
    + injection Hn as <-. exists b. now split.
    + now apply Hnth.
Qed.


(** ** batched and the rows of the run *)

Lemma sequence_results_map_bind {A B C : Type} (f : A -> result B) (g : B -> C)
    (l : list A) :
  result_bind (sequence_results (map f l)) (fun ys => Ok (map g ys)) =
  sequence_results (map (fun x => result_bind (f x) (fun y => Ok (g y))) l).
Proof.
  induction l as [|a l IH]; simpl; [reflexivity|].
  destruct (f a) as [b | e]; simpl; [|reflexivity].
  rewrite <- IH. destruct (sequence_results (map f l)); reflexivity.
Qed.

Lemma encode_batch_per_text (rt : Runtime) (texts : list string) (tokenizer : Tokenizer)
    (model : Model) (cfg : EncodeConfig) :
  encode_batch_sparse rt texts tokenizer model cfg =
  sequence_results (map (encode_text rt tokenizer model cfg) texts).
Proof.
  unfold encode_batch_sparse. rewrite dense_rows_per_text.
  apply (sequence_results_map_bind (dense_of_text rt tokenizer model cfg)).
Qed.

Lemma sequence_results_app {A : Type} (l1 l2 : list (result A)) :
  sequence_results (l1 ++ l2) =
  result_bind (sequence_results l1)
    (fun ys1 => result_bind (sequence_results l2) (fun ys2 => Ok (ys1 ++ ys2))).
Proof.
  induction l1 as [|r l1 IH]; simpl.
  - destruct (sequence_results l2); reflexivity.
  - destruct r as [a | e]; simpl; [|reflexivity]. rewrite IH.
    destruct (sequence_results l1); simpl; [|reflexivity].
    destruct (sequence_results l2); reflexivity.
Qed.

Lemma sequence_results_length {A : Type} (l : list (result A)) (ys : list A) :
  sequence_results l = Ok ys -> length ys = length l.
Proof.
  revert ys. induction l as [|r l IH]; simpl; intros ys H.
  - now injection H as <-.
  - destruct r as [a | e]; simpl in H; [|discriminate].
    destruct (sequence_results l) as [ys' | e]; simpl in H; [|discriminate].
    injection H as <-. simpl. now rewrite (IH ys').
Qed.

Lemma combine_app {A B : Type} (l1 l2 : list A) (k1 k2 : list B) :
  length l1 = length k1 ->
  combine (l1 ++ l2) (k1 ++ k2) = combine l1 k1 ++ combine l2 k2.
Proof.
  revert k1. induction l1 as [|a l1 IH]; intros [|b k1] H; simpl in *;
    try discriminate; [reflexivity|].
  rewrite IH; [reflexivity | lia].
Qed.

Lemma fold_add_row (items : list (string * SparseVector)) (rows : list GoldenRow) :
  fold_left add_row items rows =
  rows ++ numbered_rows (Z.of_nat (length rows)) items.
Proof.
  revert rows. induction items as [|[text sv] items IH]; intros rows; simpl.
  - now rewrite app_nil_r.
  - rewrite IH. unfold numbered_rows. simpl. rewrite <- app_assoc. simpl.
    rewrite length_app. simpl.
    replace (Z.of_nat (length rows + 1)) with (Z.of_nat (length rows) + 1) by lia.
    reflexivity.
Qed.

(** *** The batches cover the documents in order *)

Lemma slice_nonneg {A : Type} (items : list A) (lo hi : Z) :
  0 <= lo <= hi ->
  slice items lo hi = firstn (Z.to_nat (hi - lo)) (skipn (Z.to_nat lo) items).
Proof.
  intros H. unfold slice, slice_bound.
  set (len := Z.of_nat (length items)).
  replace (lo <? 0) with false by (symmetry; apply Z.ltb_ge; lia).
  replace (hi <? 0) with false by (symmetry; apply Z.ltb_ge; lia).
  destruct (Z.le_gt_cases lo len) as [Hlo | Hlo].
  - rewrite (Z.min_l lo len) by lia.
    destruct (Z.le_gt_cases hi len) as [Hhi | Hhi].
    + now rewrite (Z.min_l hi len) by lia.
    + rewrite (Z.min_r hi len) by lia.
      rewrite !firstn_all2; try reflexivity; rewrite length_skipn; unfold len in *; lia.
  - rewrite (Z.min_r lo len), (Z.min_r hi len) by lia.
    rewrite Z.sub_diag. simpl.
    rewrite (skipn_all2 items) by (unfold len in *; lia).
    now rewrite firstn_nil.
Qed.

Lemma chunks_concat {A : Type} (items : list A) (size n k : nat) :
  (length items <= (k + n) * size)%nat ->
  concat (map (fun i => firstn size (skipn (i * size) items)) (seq k n)) =
  skipn (k * size) items.
Proof.
  revert k. induction n as [|n IH]; intros k H; simpl.
  - symmetry. apply skipn_all2. lia.
  - rewrite IH by lia.
    replace (S k * size)%nat with (size + k * size)%nat by lia.
    rewrite <- skipn_skipn. apply firstn_skipn.
Qed.

Lemma batched_positive (items : list string) (batch_size : Z) :
  0 < batch_size ->
  exists batches,
    batched items batch_size = Ok batches /\ concat batches = items /\
    Forall (fun batch => Z.of_nat (length batch) <= batch_size) batches.
Proof.
  intros Hpos. unfold batched, range0.
  replace (batch_size =? 0) with false by (symmetry; apply Z.eqb_neq; lia).
  replace (batch_size <? 0) with false by (symmetry; apply Z.ltb_ge; lia).
  simpl. eexists. split; [reflexivity|].
  rewrite map_map.
  set (len := Z.of_nat (length items)).
  set (n := Z.to_nat ((len + batch_size - 1) / batch_size)).
  assert (Hn : len <= Z.of_nat n * batch_size).
  { unfold n. rewrite Z2Nat.id by (apply Z.div_pos; unfold len; lia).
    pose proof (Z.mul_div_le (len + batch_size - 1) batch_size Hpos).
    pose proof (Z.mod_pos_bound (len + batch_size - 1) batch_size Hpos).
    pose proof (Z.div_mod (len + batch_size - 1) batch_size).
    nia. }
  assert (Hmap : map (fun i => slice items (Z.of_nat i * batch_size)
                                 (Z.of_nat i * batch_size + batch_size)) (seq 0 n) =
                 map (fun i => firstn (Z.to_nat batch_size)
                                 (skipn (i * Z.to_nat batch_size) items)) (seq 0 n)).
  { apply map_ext. intros i. rewrite slice_nonneg by nia.
    f_equal; [f_equal; lia|]. f_equal. nia. }
  rewrite Hmap. split.
  - rewrite chunks_concat; [reflexivity|]. unfold len in Hn. nia.
  - apply Forall_forall. intros batch Hb. apply in_map_iff in Hb.
    destruct Hb as [i [<- _]]. pose proof (firstn_le_length (Z.to_nat batch_size)
      (skipn (i * Z.to_nat batch_size) items)). lia.
Qed.

Lemma encode_batches_result (rt : Runtime) (tokenizer : Tokenizer) (model : Model)
    (cfg : EncodeConfig) (batches : list (list string)) :
  forall (i : Z) (rows : list GoldenRow) (w : World),
    fst (encode_batches rt tokenizer model cfg i batches rows w) =
    result_bind
      (sequence_results (map (encode_text rt tokenizer model cfg) (concat batches)))
      (fun vecs => Ok (fold_left add_row (combine (concat batches) vecs) rows)).
Proof.
  induction batches as [|batch rest IH]; intros i rows w; simpl.
  - reflexivity.
  - unfold bind, print_err, lift. simpl.
    rewrite map_app, sequence_results_app, <- encode_batch_per_text.
    destruct (encode_batch_sparse rt batch tokenizer model cfg) as [vb | e] eqn:E;
      simpl; [|reflexivity].
    rewrite IH.
    destruct (sequence_results (map (encode_text rt tokenizer model cfg) (concat rest)))
      as [vr | e]; simpl; [|reflexivity].
    rewrite combine_app, fold_left_app; [reflexivity|].
    rewrite encode_batch_per_text in E. apply sequence_results_length in E.
    now rewrite length_map in E.
Qed.

Lemma encode_text_batch_size (rt : Runtime) (tokenizer : Tokenizer) (model : Model)
    (cfg : EncodeConfig) (batch_size : Z) (text : string) :
  encode_text rt tokenizer model (with_batch_size cfg batch_size) text =
  encode_text rt tokenizer model cfg text.
Proof. reflexivity. Qed.

(** The rows of a run with a positive batch size: every text is encoded on
    its own, and the rows are numbered through. *)
Lemma golden_rows_result (rt : Runtime) (tokenizer : Tokenizer) (model : Model)
    (cfg : EncodeConfig) (texts : list string) (w : World) :
  0 < cfg_batch_size cfg ->
  fst (golden_rows rt tokenizer model cfg texts w) =
  result_bind (sequence_results (map (encode_text rt tokenizer model cfg) texts))
    (fun vecs => Ok (numbered_rows 0 (combine texts vecs))).
Proof.
  intros Hpos. unfold golden_rows, bind, lift.
  destruct (batched_positive texts (cfg_batch_size cfg) Hpos) as [batches [Hb [Hc _]]].
  rewrite Hb, encode_batches_result, Hc.
  destruct (sequence_results (map (encode_text rt tokenizer model cfg) texts));
    simpl; [|reflexivity].
  now rewrite fold_add_row.
Qed.

Lemma numbered_rows_nth (start : Z) (items : list (string * SparseVector)) (n : nat)
    (item : string * SparseVector) :
  nth_error items n = Some item ->
  nth_error (numbered_rows start items) n = Some (numbered_row (start + Z.of_nat n) item).
Proof.
  revert start n. induction items as [|x items IH]; intros start [|n] H;
    simpl in *; try discriminate.
  - injection H as <-. now rewrite Z.add_0_r.
  - unfold numbered_rows in IH. rewrite (IH (start + 1) n H).
    do 2 f_equal. lia.
Qed.

Lemma numbered_rows_length (start : Z) (items : list (string * SparseVector)) :
  length (numbered_rows start items) = length items.
Proof.
  unfold numbered_rows. rewrite length_map. revert start.
  induction items as [|x items IH]; intros start; simpl; [reflexivity|].
  now rewrite IH.
Qed.

Lemma combine_nth_error {A B : Type} (l : list A) (k : list B) (n : nat) (a : A) (b : B) :
  nth_error l n = Some a -> nth_error k n = Some b ->
  nth_error (combine l k) n = Some (a, b).
Proof.
  revert k n. induction l as [|x l IH]; intros [|y k] [|n] Ha Hb; simpl in *;
    try discriminate.
  - congruence.
  - now apply IH.
Qed.

(** C5. Rows and batch sizes. With a positive batch size the rows of a run
    are those of its documents encoded one by one, in input order; so two
    runs that differ in their positive batch sizes only give the same rows.
    When every document can be encoded there is one row per document, and
    the row of the document at position [n] (from zero) has the id "s"
    followed by [n + 1], the text of the document and its sparse vector. *)
Theorem C5_rows_independent_of_batch_size :
  forall (rt : Runtime) (tokenizer : Tokenizer) (model : Model) (cfg : EncodeConfig)
         (texts : list string) (vocab : nat) (w : World) (batch_size : Z),
    0 < batch_size ->
    (forall text, In text texts ->
       let enc := tokenize tokenizer text (cfg_sequence_length cfg) in
       well_shaped vocab (forward model enc) (attention_mask enc)) ->
    (forall (batch_size' : Z) (w' : World), 0 < batch_size' ->
       fst (golden_rows rt tokenizer model (with_batch_size cfg batch_size') texts w') =
       fst (golden_rows rt tokenizer model (with_batch_size cfg batch_size) texts w)) /\
    exists rows,
      fst (golden_rows rt tokenizer model (with_batch_size cfg batch_size) texts w) = Ok rows /\
      length rows = length texts /\
      forall n text, nth_error texts n = Some text ->
        exists sv,
          encode_text rt tokenizer model cfg text = Ok sv /\
          nth_error rows n =
            Some {| row_id := ("s" ++ str_int (Z.of_nat n + 1))%string;
                    row_text := text;
                    row_indices := indices sv;
                    row_values := values sv;
                    row_labels := labels sv |}.
Proof.
  intros rt tok model cfg texts vocab w bs Hpos Hshape. split.
  - intros bs' w' Hpos'. now rewrite !golden_rows_result.
  - rewrite golden_rows_result by exact Hpos.
    destruct (sequence_results_Ok (encode_text rt tok model cfg) texts)
      as [vecs [Hv [Hlen Hnth]]].
    { intros text Hin.
      destruct (dense_of_doc_spec rt vocab _ _ (Hshape text Hin)) as [row [Hrow _]].
      eexists. unfold encode_text, dense_of_text. rewrite Hrow. reflexivity. }
    change (map (encode_text rt tok model (with_batch_size cfg bs)) texts)
      with (map (encode_text rt tok model cfg) texts).
    rewrite Hv. simpl. eexists. split; [reflexivity|].
    split; [rewrite numbered_rows_length, length_combine; lia|].
    intros n text Hn. destruct (Hnth n text Hn) as [sv [Hsv Henc]].
    exists sv. split; [exact Henc|].
    rewrite (numbered_rows_nth 0 _ n (text, sv)) by now apply combine_nth_error.
    reflexivity.
Qed.

(** ** Whitespace *)

Lemma lstrip_decomp (s : string) :
  exists l, s = (l ++ lstrip s)%string /\ all_space l = true /\
            starts_tight (lstrip s) = true.
Proof.
  induction s as [|c s IH]; simpl.
  - exists ""%string. repeat split.
  - destruct (isspace c) eqn:E.
    + destruct IH as [l [H1 [H2 H3]]]. exists (String c l). simpl.
      rewrite E, H2. repeat split; [now rewrite <- H1 | exact H3].
    + exists ""%string. simpl. rewrite E. repeat split.
Qed.

Lemma rstrip_decomp (s : string) :
  exists r, s = (rstrip s ++ r)%string /\ all_space r = true /\
            ends_tight (rstrip s) = true.
Proof.
  induction s as [|c s IH]; simpl.
  - exists ""%string. repeat split.
  - destruct IH as [r [H1 [H2 H3]]].
    destruct (rstrip s) as [|c' s'] eqn:E.
    + simpl in H1. subst r. destruct (isspace c) eqn:Ec.
      * exists (String c s). simpl. rewrite Ec, H2. repeat split.
      * exists s. simpl. rewrite Ec. repeat split. exact H2.
    + exists r. split; [simpl; f_equal; exact H1|].
      split; [exact H2 | exact H3].
Qed.

Lemma rstrip_starts_tight (s : string) :
  starts_tight s = true -> starts_tight (rstrip s) = true.
Proof.
  destruct s as [|c s]; simpl; [reflexivity|]. intros H.
  destruct (isspace c) eqn:E; [discriminate|].
  destruct (rstrip s); simpl; now rewrite E.
Qed.

Lemma strip_trimmed (s : string) : trimmed_of s (strip s).
Proof.
  unfold strip. destruct (lstrip_decomp s) as [l [H1 [H2 H3]]].
  destruct (rstrip_decomp (lstrip s)) as [r [H4 [H5 H6]]].
  exists l, r. split; [now rewrite <- H4|].
  repeat split; auto. now apply rstrip_starts_tight.
Qed.

Lemma all_space_app (s t : string) :
  all_space (s ++ t) = all_space s && all_space t.
Proof.
  induction s as [|c s IH]; simpl; [reflexivity|]. now rewrite IH, andb_assoc.
Qed.

Lemma all_space_tight (s : string) :
  all_space s = true -> starts_tight s = true -> s = ""%string.
Proof.
  destruct s as [|c s]; simpl; [reflexivity|]. intros H1 H2.
  apply andb_true_iff in H1. destruct H1 as [H1 _].
  rewrite H1 in H2. discriminate.
Qed.

(** Stripping leaves nothing exactly when there was only whitespace. *)
Lemma strip_empty_iff (s : string) :
  strip s = ""%string <-> all_space s = true.
Proof.
  destruct (strip_trimmed s) as [l [r [H1 [H2 [H3 [H4 H5]]]]]]. split.
  - intros E. rewrite E in H1. simpl in H1. rewrite H1, all_space_app.
    now rewrite H2, H3.
  - intros E. rewrite H1 in E at 1. rewrite !all_space_app in E.
    apply andb_true_iff in E. destruct E as [_ E].
    apply andb_true_iff in E. destruct E as [E _].
    now apply all_space_tight.
Qed.

Lemma str_truthy_strip (s : string) : str_truthy (strip s) = negb (all_space s).
Proof.
  destruct (all_space s) eqn:E.
  - apply strip_empty_iff in E. now rewrite E.
  - destruct (strip s) eqn:E'; [|reflexivity].
    apply strip_empty_iff in E'. congruence.
Qed.

(** ** load_texts *)

Lemma load_line_fold (lines texts : list string) :
  fold_left load_line lines texts =
  texts ++ filter str_truthy (map strip lines).
Proof.
  revert texts. induction lines as [|line lines IH]; intros texts; simpl.
  - now rewrite app_nil_r.
  - rewrite IH. unfold load_line. destruct (str_truthy (strip line)).
    + now rewrite <- app_assoc.
    + reflexivity.
Qed.

Lemma filter_map_length {A B : Type} (f : A -> B) (p : B -> bool) (l : list A) :
  length (filter p (map f l)) = length (filter (fun x => p (f x)) l).
Proof.
  induction l as [|x l IH]; simpl; [reflexivity|].
  destruct (p (f x)); simpl; now rewrite IH.
Qed.

(** C7. The text loader. Without a file the inline strings are returned as
    they are. With a file that can be read, the texts are the inline strings
    as given, followed by the lines of the file in file order, each with the
    whitespace at its ends removed, the lines of whitespace only (and the
    empty ones) left out; so there are as many texts from the file as it has
    lines with something else than whitespace, and a file of three such
    lines with two blank lines between them gives three texts. *)
Theorem C7_load_texts :
  (forall (inline_texts : list string) (w : World),
      load_texts inline_texts None w = (Ok inline_texts, w)) /\
  (forall (inline_texts : list string) (path : Path) (content : string) (w : World),
      fs_lookup (files w) path = Some (File content) ->
      let from_file := filter str_truthy (map strip (file_lines content)) in
      load_texts inline_texts (Some path) w = (Ok (inline_texts ++ from_file), w) /\
      (forall text, In text from_file ->
         exists line, In line (file_lines content) /\ all_space line = false /\
                      text = strip line /\ trimmed_of line text) /\
      (forall line, In line (file_lines content) -> all_space line = false ->
         In (strip line) from_file) /\
      length from_file =
        length (filter (fun line => negb (all_space line)) (file_lines content))) /\
  (forall (w : World) (path : Path),
      let content :=
        ("alpha" ++ newline ++ newline ++ "  beta " ++ newline
         ++ "   " ++ newline ++ "gamma" ++ newline)%string in
      fs_lookup (files w) path = Some (File content) ->
      load_texts [] (Some path) w = (Ok ["alpha"; "beta"; "gamma"]%string, w)).
Proof.
  split; [reflexivity|]. split.
  - intros inline path content w Hfile from_file. split; [|split; [|split]].
    + unfold load_texts, bind, read_text, ret. rewrite Hfile.
      now rewrite load_line_fold.
    + intros text Hin. unfold from_file in Hin. apply filter_In in Hin.
      destruct Hin as [Hin Ht]. apply in_map_iff in Hin.
      destruct Hin as [line [<- Hline]]. exists line.
      rewrite str_truthy_strip in Ht. apply negb_true_iff in Ht.
      repeat split; auto. apply strip_trimmed.
    + intros line Hin Hsp. unfold from_file. apply filter_In. split.
      * now apply in_map.
      * rewrite str_truthy_strip, Hsp. reflexivity.
    + unfold from_file. rewrite filter_map_length. f_equal.
      apply filter_ext. intros line. apply str_truthy_strip.
  - intros w path content Hfile.
    unfold load_texts, bind, read_text, ret. rewrite Hfile. reflexivity.
Qed.

(** ** resolve_device *)

(** C8. The device resolver. A request other than "auto" is returned as it
    is. For "auto" the answer is "cuda" when CUDA is available, else "mps"
    when the MPS backend exists and is available, else "cpu"; so with both
    accelerators unavailable "auto" resolves to "cpu". *)
Theorem C8_resolve_device :
  forall (rt : Runtime),
    (forall device_arg : string,
        device_arg <> "auto"%string -> resolve_device rt device_arg = device_arg) /\
    (cuda_is_available rt = true -> resolve_device rt "auto" = "cuda"%string) /\
    (cuda_is_available rt = false ->
     backends_has_mps rt && mps_is_available rt = true ->
     resolve_device rt "auto" = "mps"%string) /\
    (cuda_is_available rt = false ->
     backends_has_mps rt && mps_is_available rt = false ->
     resolve_device rt "auto" = "cpu"%string) /\
    (cuda_is_available rt = false -> mps_is_available rt = false ->
     resolve_device rt "auto" = "cpu"%string).
Proof.
  intros rt. unfold resolve_device. split; [|split; [|split; [|split]]].
  - intros d Hd. apply String.eqb_neq in Hd. now rewrite Hd.
  - intros ->. reflexivity.
  - intros -> ->. reflexivity.
  - intros -> ->. reflexivity.
  - intros -> ->. simpl. now rewrite andb_false_r.
Qed.

(** ** The access token *)

(** C10. The access token. There is no token exactly when the variable is
    unset or its value is empty or whitespace only; otherwise the token is
    the value without the whitespace at its two ends. *)
Theorem C10_hf_token_from_env :
  forall (rt : Runtime) (hf_token_env : string),
    (hf_token_from_env rt hf_token_env = None <->
       environ rt hf_token_env = None \/
       exists value, environ rt hf_token_env = Some value /\ all_space value = true) /\
    (forall value,
       environ rt hf_token_env = Some value -> all_space value = false ->
       hf_token_from_env rt hf_token_env = Some (strip value) /\
       trimmed_of value (strip value) /\ strip value <> ""%string).
Proof.
  intros rt name. unfold hf_token_from_env, getenv.
  destruct (environ rt name) as [value|] eqn:E.
  - rewrite str_truthy_strip. split.
    + destruct (all_space value) eqn:Ev; simpl; split; intros H.
      * right. exists value. now split.
      * reflexivity.
      * discriminate.
      * destruct H as [H | [v [Hv Hs]]]; [discriminate|].
        injection Hv as <-. congruence.
    + intros v Hv Hs. injection Hv as <-. rewrite Hs. simpl.
      split; [reflexivity|]. split; [apply strip_trimmed|].
      intros H. apply strip_empty_iff in H. congruence.
  - split.
    + simpl. split; [now left | reflexivity].
    + intros v Hv. discriminate.
Qed.

(** ** The file system *)

Lemma string_app_assoc (a b c : string) : ((a ++ b) ++ c = a ++ (b ++ c))%string.
Proof. induction a as [|x a IH]; simpl; [reflexivity | now rewrite IH]. Qed.

Lemma path_eqb_refl (p : Path) : path_eqb p p = true.
Proof. unfold path_eqb. destruct (list_eq_dec string_dec p p); congruence. Qed.

Lemma path_eqb_neq (p q : Path) : p <> q -> path_eqb p q = false.
Proof. unfold path_eqb. destruct (list_eq_dec string_dec p q); congruence. Qed.

Lemma fs_set_same (fs : FileSystem) (p : Path) (n : Node) : fs_set fs p n p = Some n.
Proof. unfold fs_set. now rewrite path_eqb_refl. Qed.

Lemma fs_set_other (fs : FileSystem) (p q : Path) (n : Node) :
  q <> p -> fs_set fs p n q = fs q.
Proof. intros H. unfold fs_set. now rewrite path_eqb_neq. Qed.

Lemma path_dec (p q : Path) : {p = q} + {p <> q}.
Proof. apply list_eq_dec, string_dec. Qed.

Lemma app_not_self {A : Type} (l l' : list A) : l' <> [] -> l ++ l' <> l.
Proof.
  intros H E. apply H. apply (app_inv_head l). now rewrite app_nil_r.
Qed.

(** What [mkdir] with [parents=True] and [exist_ok=True] does. *)
Lemma mkdir_from_spec (todo : list string) :
  forall (done : Path) (w w' : World) (r : result unit),
    mkdir_from done todo w = (r, w') ->
    stderr w' = stderr w /\ loaded w' = loaded w /\
    (forall q,
        files w' q = files w q \/
        ((exists pre post, pre <> [] /\ todo = pre ++ post /\ q = done ++ pre) /\
         files w q = None /\ files w' q = Some Dir)) /\
    (r = Ok tt ->
     forall pre post, pre <> [] -> todo = pre ++ post ->
       files w' (done ++ pre) = Some Dir) /\
    ((forall pre post, pre <> [] -> todo = pre ++ post ->
        forall content, files w (done ++ pre) <> Some (File content)) ->
     r = Ok tt).
Proof.
  induction todo as [|c rest IH]; intros done w w' r H; simpl in H.
  - unfold ret in H. injection H as <- <-.
    split; [reflexivity|]. split; [reflexivity|]. split; [now left|].
    split; [|reflexivity].
    intros _ pre post Hpre E. symmetry in E. apply app_eq_nil in E. tauto.
  - set (p := done ++ [c]) in *.
    assert (Hcons : forall pre' : list string, done ++ c :: pre' = p ++ pre').
    { intros pre'. unfold p. now rewrite <- app_assoc. }
    destruct (files w p) as [[|content]|] eqn:E.
    + destruct (IH p w w' r H) as [Ha [Hb [Hc [Hd He]]]].
      split; [exact Ha|]. split; [exact Hb|]. split; [|split].
      * intros q. destruct (Hc q) as [Hq | [[pre [post [H1 [H2 H3]]]] Hq]];
          [now left | right]. split; [|exact Hq].
        exists (c :: pre), post. split; [discriminate|].
        split; [now rewrite H2 | now rewrite Hcons].
      * intros Hr pre post Hpre Epre. destruct pre as [|c' pre']; [contradiction|].
        injection Epre as <- Erest. rewrite Hcons.
        destruct pre' as [|c'' pre''].
        -- rewrite app_nil_r. destruct (Hc p) as [Hq | [_ [Hq _]]]; congruence.
        -- apply (Hd Hr _ post); [discriminate | exact Erest].
      * intros Hok. apply He. intros pre post Hpre Epre content.
        rewrite <- Hcons. apply (Hok (c :: pre) post); [discriminate|].
        now rewrite Epre.
    + injection H as <- <-.
      split; [reflexivity|]. split; [reflexivity|]. split; [now left|]. split.
      * destruct (nonempty rest); discriminate.
      * intros Hok. exfalso. apply (Hok [c] rest ltac:(discriminate) eq_refl content).
        exact E.
    + set (w1 := set_files (fs_set (files w) p Dir) w) in *.
      destruct (IH p w1 w' r H) as [Ha [Hb [Hc [Hd He]]]].
      assert (Hp : files w' p = Some Dir).
      { destruct (Hc p) as [Hq | [_ [Hq _]]].
        - rewrite Hq. unfold w1. simpl. apply fs_set_same.
        - unfold w1 in Hq. simpl in Hq. rewrite fs_set_same in Hq. discriminate. }
      split; [exact Ha|]. split; [exact Hb|]. split; [|split].
      * intros q. destruct (path_dec q p) as [-> | Hne].
        -- right. split; [|now split]. exists [c], rest.
           split; [discriminate|]. split; reflexivity.
        -- destruct (Hc q) as [Hq | [[pre [post [H1 [H2 H3]]]] [Hq1 Hq2]]].
           ++ left. rewrite Hq. unfold w1. simpl. now apply fs_set_other.
           ++ right. unfold w1 in Hq1. simpl in Hq1.
              rewrite fs_set_other in Hq1 by exact Hne.
              split; [|now split]. exists (c :: pre), post.
              split; [discriminate|]. split; [now rewrite H2 | now rewrite Hcons].
      * intros Hr pre post Hpre Epre. destruct pre as [|c' pre']; [contradiction|].
        injection Epre as <- Erest. rewrite Hcons.
        destruct pre' as [|c'' pre''].
        -- now rewrite app_nil_r.
        -- apply (Hd Hr _ post); [discriminate | exact Erest].
      * intros Hok. apply He. intros pre post Hpre Epre content.
        unfold w1. simpl. rewrite fs_set_other by (now apply app_not_self).
        rewrite <- Hcons. apply (Hok (c :: pre) post); [discriminate|].
        now rewrite Epre.
Qed.

Lemma parent_split (path pre post : Path) :
  path <> [] -> parent path = pre ++ post -> pre <> [] -> dir_above pre path.
Proof.
  intros Hne E Hpre. split; [exact Hpre|].
  exists (post ++ [last path ""%string]). split.
  - intros H. apply app_eq_nil in H. destruct H as [_ H]. discriminate.
  - rewrite app_assoc, <- E. now apply app_removelast_last.
Qed.

Lemma parent_shorter (path pre post : Path) :
  path <> [] -> parent path = pre ++ post -> path <> pre.
Proof.
  intros Hne E ->. apply (f_equal (@length string)) in E.
  unfold parent in E. rewrite removelast_firstn_len, length_firstn, length_app in E.
  destruct pre; [contradiction | simpl in E; lia].
Qed.

Lemma mkdir_parents_parent (path : Path) (w w' : World) :
  path <> [] ->
  mkdir_parents (parent path) w = (Ok tt, w') ->
  fs_lookup (files w') (parent path) = Some Dir /\
  files w' path = files w path /\
  dirs_added path w w'.
Proof.
  intros Hne H. unfold mkdir_parents in H.
  destruct (mkdir_from_spec _ _ _ _ _ H) as [Ha [Hb [Hc [Hd _]]]].
  split; [|split].
  - destruct (parent path) as [|c rest] eqn:E; [reflexivity|].
    simpl. apply (Hd eq_refl (c :: rest) []); [discriminate|].
    now rewrite app_nil_r.
  - destruct (Hc path) as [Hq | [[pre [post [H1 [H2 H3]]]] _]]; [exact Hq|].
    exfalso. simpl in H3. now apply (parent_shorter path pre post).
  - split; [exact Ha|]. split; [exact Hb|]. intros q Hq.
    destruct (Hc q) as [Hq' | [[pre [post [H1 [H2 H3]]]] Hq']]; [now left | right].
    split; [|exact Hq']. simpl in H3. subst q. now apply (parent_split path pre post).
Qed.

Lemma mkdir_parents_writable (path : Path) (w : World) :
  writable path w -> exists w', mkdir_parents (parent path) w = (Ok tt, w').
Proof.
  intros [Hnd Hfiles]. unfold mkdir_parents.
  destruct (mkdir_from [] (parent path) w) as [r w'] eqn:E.
  destruct (mkdir_from_spec _ _ _ _ _ E) as [_ [_ [_ [_ He]]]].
  exists w'. rewrite He; [reflexivity|].
  intros pre post Hpre Epre content. simpl. apply Hfiles.
  apply (parent_split path pre post); auto.
  intros ->. now apply Hnd.
Qed.

Lemma open_w_inv (path : Path) (w w' : World) :
  open_w path w = (Ok tt, w') ->
  path <> [] /\ w' = set_files (fs_set (files w) path (File "")) w.
Proof.
  unfold open_w. intros H.
  destruct (fs_lookup (files w) (parent path)) as [[|c]|]; try discriminate.
  destruct path as [|x path]; [discriminate|]. split; [discriminate|].
  destruct (fs_lookup (files w) (x :: path)) as [[|c]|]; try discriminate;
    now injection H as <-.
Qed.

Lemma open_w_ok (path : Path) (w : World) :
  fs_lookup (files w) (parent path) = Some Dir ->
  fs_lookup (files w) path <> Some Dir ->
  open_w path w = (Ok tt, set_files (fs_set (files w) path (File "")) w).
Proof.
  intros Hp Hn. unfold open_w. rewrite Hp.
  destruct (fs_lookup (files w) path) as [[|c]|]; [contradiction | reflexivity | reflexivity].
Qed.

Lemma handle_write_ok (path : Path) (s content : string) (w : World) :
  files w path = Some (File content) ->
  handle_write path s w =
    (Ok tt, set_files (fs_set (files w) path (File (content ++ s))) w).
Proof. intros H. unfold handle_write. now rewrite H. Qed.

Lemma handle_write_appended (path : Path) (s content : string) (w : World) :
  files w path = Some (File content) ->
  exists w', handle_write path s w = (Ok tt, w') /\ appended path content s w w'.
Proof.
  intros H. eexists. split; [apply handle_write_ok; exact H|].
  split; [simpl; apply fs_set_same|]. split; [|split; reflexivity].
  intros q Hq. simpl. now apply fs_set_other.
Qed.

Lemma write_rows_appended (rt : Runtime) (path : Path) (rows : list GoldenRow) :
  forall (content : string) (w : World),
    files w path = Some (File content) ->
    exists w',
      for_each rows (fun row =>
        bind (handle_write path (json_dumps rt row))
             (fun _ => handle_write path newline)) w = (Ok tt, w') /\
      appended path content (jsonl_text rt rows) w w'.
Proof.
  induction rows as [|row rows IH]; intros content w H; simpl.
  - exists w. split; [reflexivity|]. split; [|repeat split].
    rewrite H. f_equal. f_equal. clear. induction content as [|x a IHa]; simpl;
      [reflexivity | now rewrite <- IHa].
  - destruct (handle_write_appended path (json_dumps rt row) content w H)
      as [w1 [E1 [F1 [O1 [S1 L1]]]]].
    destruct (handle_write_appended path newline _ w1 F1)
      as [w2 [E2 [F2 [O2 [S2 L2]]]]].
    destruct (IH _ w2 F2) as [w3 [E3 [F3 [O3 [S3 L3]]]]].
    exists w3. split.
    + unfold bind at 1. unfold bind at 1. rewrite E1, E2. exact E3.
    + split; [|split; [|split]].
      * rewrite F3. now rewrite !string_app_assoc.
      * intros q Hq. now rewrite O3, O2, O1.
      * congruence.
      * congruence.
Qed.

Lemma writer_written (path : Path) (text : string) (body : M unit) :
  writes_text path text body ->
  forall w w', writer path body w = (Ok tt, w') -> written path text w w'.
Proof.
  intros Hbody w w' H. unfold writer, bind in H.
  destruct (mkdir_parents (parent path) w) as [[[]|e] w1] eqn:E1; [|discriminate].
  destruct (open_w path w1) as [[[]|e] w2] eqn:E2; [|discriminate].
  destruct (open_w_inv _ _ _ E2) as [Hne ->].
  destruct (mkdir_parents_parent path w w1 Hne E1) as [_ [_ [Hs [Hl Hframe]]]].
  destruct (Hbody (set_files (fs_set (files w1) path (File "")) w1))
    as [w3 [E3 [F3 [O3 [S3 L3]]]]]; [simpl; apply fs_set_same|].
  rewrite E3 in H. injection H as <-.
  split; [exact F3|]. split; [|split].
  - rewrite S3. exact Hs.
  - rewrite L3. exact Hl.
  - intros q Hq. rewrite (O3 q Hq). simpl. rewrite fs_set_other by exact Hq.
    now apply Hframe.
Qed.

Lemma writer_succeeds (path : Path) (text : string) (body : M unit) :
  writes_text path text body ->
  forall w, writable path w -> exists w', writer path body w = (Ok tt, w').
Proof.
  intros Hbody w Hw. destruct (mkdir_parents_writable path w Hw) as [w1 E1].
  assert (Hne : path <> []) by (intros ->; now apply (proj1 Hw)).
  destruct (mkdir_parents_parent path w w1 Hne E1) as [Hp [Hsame _]].
  assert (Hnd : fs_lookup (files w1) path <> Some Dir).
  { destruct Hw as [Hnd _]. destruct path; [contradiction|]. simpl in *.
    now rewrite Hsame. }
  destruct (Hbody (set_files (fs_set (files w1) path (File "")) w1))
    as [w3 [E3 _]]; [simpl; apply fs_set_same|].
  exists w3. unfold writer, bind. rewrite E1, (open_w_ok path w1 Hp Hnd). exact E3.
Qed.

Lemma write_jsonl_body (rt : Runtime) (path : Path) (rows : list GoldenRow) :
  writes_text path (jsonl_text rt rows)
    (for_each rows (fun row =>
       bind (handle_write path (json_dumps rt row))
            (fun _ => handle_write path newline))).
Proof. intros w H. now apply write_rows_appended. Qed.

Lemma write_metadata_body (rt : Runtime) (path : Path) (metadata : Metadata) :
  writes_text path (json_dump rt metadata ++ newline)
    (bind (handle_write path (json_dump rt metadata))
          (fun _ => handle_write path newline)).
Proof.
  intros w H.
  destruct (handle_write_appended path (json_dump rt metadata) _ w H)
    as [w1 [E1 [F1 [O1 [S1 L1]]]]].
  destruct (handle_write_appended path newline _ w1 F1)
    as [w2 [E2 [F2 [O2 [S2 L2]]]]].
  exists w2. split; [unfold bind; now rewrite E1|].
  split; [|split; [|split]].
  - rewrite F2. now rewrite !string_app_assoc.
  - intros q Hq. now rewrite O2, O1.
  - congruence.
  - congruence.
Qed.

(** C9. The writers truncate and touch nothing else. When [write_jsonl]
    returns, the file at its path holds exactly the serialized rows, one
    line each, and when [write_metadata] returns, the file at its path holds
    exactly the metadata document and a line feed, whatever was at the path
    before; the error stream is as it was, and every other path of the file
    system is as it was, apart from the missing directories above the target
    that were created. Both writers return when no directory is in the place
    of the file and no file in the place of a directory above it. *)
Theorem C9_writers_truncate_and_frame :
  forall (rt : Runtime) (path : Path) (rows : list GoldenRow) (metadata : Metadata)
         (w : World),
    (forall w', write_jsonl rt path rows w = (Ok tt, w') ->
       written path (jsonl_text rt rows) w w') /\
    (forall w', write_metadata rt path metadata w = (Ok tt, w') ->
       written path (json_dump rt metadata ++ newline) w w') /\
    (writable path w ->
       (exists w', write_jsonl rt path rows w = (Ok tt, w')) /\
       (exists w', write_metadata rt path metadata w = (Ok tt, w'))).
Proof.
  intros rt path rows metadata w. split; [|split].
  - intros w' H. apply (writer_written path _ _ (write_jsonl_body rt path rows)). exact H.
  - intros w' H.
    apply (writer_written path _ _ (write_metadata_body rt path metadata)). exact H.
  - intros Hw. split.
    + apply (writer_succeeds path _ _ (write_jsonl_body rt path rows) w Hw).
    + apply (writer_succeeds path _ _ (write_metadata_body rt path metadata) w Hw).
Qed.

(** ** main *)

Lemma same_log_bind {A B : Type} (m : M A) (k : A -> M B) :
  same_log m -> (forall a, same_log (k a)) -> same_log (bind m k).
Proof.
  intros Hm Hk w. unfold bind. specialize (Hm w).
  destruct (m w) as [[a|e] w1]; simpl in *.
  - now rewrite Hk.
  - exact Hm.
Qed.

Lemma same_log_keeps {A : Type} (m : M A) : same_log m -> keeps_log m.
Proof. intros H w. exists []. now rewrite app_nil_r. Qed.

Lemma keeps_log_bind {A B : Type} (m : M A) (k : A -> M B) :
  keeps_log m -> (forall a, keeps_log (k a)) -> keeps_log (bind m k).
Proof.
  intros Hm Hk w. unfold bind. destruct (Hm w) as [l Hl].
  destruct (m w) as [[a|e] w1]; simpl in *.
  - destruct (Hk a w1) as [l' Hl']. exists (l ++ l').
    now rewrite Hl', Hl, app_assoc.
  - now exists l.
Qed.

Lemma returns_only_bind {A B : Type} (P : B -> Prop) (m : M A) (k : A -> M B) :
  (forall a, returns_only P (k a)) -> returns_only P (bind m k).
Proof.
  intros Hk w b. unfold bind. destruct (m w) as [[a|e] w1]; simpl.
  - apply Hk.
  - discriminate.
Qed.

Lemma same_log_ret {A : Type} (a : A) : same_log (ret a).
Proof. intros w. reflexivity. Qed.

Lemma same_log_lift {A : Type} (r : result A) : same_log (lift r).
Proof. intros w. reflexivity. Qed.

Lemma same_log_print_err (msg : string) : same_log (print_err msg).
Proof. intros w. reflexivity. Qed.

Lemma same_log_read_text (p : Path) : same_log (read_text p).
Proof.
  intros w. unfold read_text. destruct (fs_lookup (files w) p) as [[|c]|]; reflexivity.
Qed.

Lemma same_log_mkdir_parents (p : Path) : same_log (mkdir_parents p).
Proof.
  intros w. unfold mkdir_parents. destruct (mkdir_from [] p w) as [r w'] eqn:E.
  now destruct (mkdir_from_spec _ _ _ _ _ E) as [_ [H _]].
Qed.

Lemma same_log_open_w (p : Path) : same_log (open_w p).
Proof.
  intros w. unfold open_w.
  destruct (fs_lookup (files w) (parent p)) as [[|c]|]; try reflexivity.
  destruct (fs_lookup (files w) p) as [[|c]|]; reflexivity.
Qed.

Lemma same_log_handle_write (p : Path) (s : string) : same_log (handle_write p s).
Proof.
  intros w. unfold handle_write. destruct (files w p) as [[|c]|]; reflexivity.
Qed.

Lemma same_log_for_each {A : Type} (l : list A) (body : A -> M unit) :
  (forall x, same_log (body x)) -> same_log (for_each l body).
Proof.
  intros H. induction l as [|x l IH]; simpl.
  - apply same_log_ret.
  - apply same_log_bind; [apply H | intros _; exact IH].
Qed.

Lemma same_log_write_jsonl (rt : Runtime) (path : Path) (rows : list GoldenRow) :
  same_log (write_jsonl rt path rows).
Proof.
  unfold write_jsonl.
  apply same_log_bind; [apply same_log_mkdir_parents | intros _].
  apply same_log_bind; [apply same_log_open_w | intros _].
  apply same_log_for_each. intros row.
  apply same_log_bind; [apply same_log_handle_write | intros _].
  apply same_log_handle_write.
Qed.

Lemma same_log_write_metadata (rt : Runtime) (path : Path) (metadata : Metadata) :
  same_log (write_metadata rt path metadata).
Proof.
  unfold write_metadata.
  apply same_log_bind; [apply same_log_mkdir_parents | intros _].
  apply same_log_bind; [apply same_log_open_w | intros _].
  apply same_log_bind; [apply same_log_handle_write | intros _].
  apply same_log_handle_write.
Qed.

Lemma same_log_sha256_file (rt : Runtime) (path : Path) : same_log (sha256_file rt path).
Proof.
  unfold sha256_file.
  apply same_log_bind; [apply same_log_read_text | intros c; apply same_log_ret].
Qed.

Lemma same_log_encode_batches (rt : Runtime) (tokenizer : Tokenizer) (model : Model)
    (cfg : EncodeConfig) (batches : list (list string)) :
  forall i rows, same_log (encode_batches rt tokenizer model cfg i batches rows).
Proof.
  induction batches as [|batch rest IH]; intros i rows; simpl.
  - apply same_log_ret.
  - apply same_log_bind; [apply same_log_print_err | intros _].
    apply same_log_bind; [apply same_log_lift | intros vecs]. apply IH.
Qed.

Lemma same_log_golden_rows (rt : Runtime) (tokenizer : Tokenizer) (model : Model)
    (cfg : EncodeConfig) (texts : list string) :
  same_log (golden_rows rt tokenizer model cfg texts).
Proof.
  unfold golden_rows.
  apply same_log_bind; [apply same_log_lift | intros b; apply same_log_encode_batches].
Qed.

Lemma load_texts_world (inline_texts : list string) (texts_file : option Path) (w : World) :
  snd (load_texts inline_texts texts_file w) = w.
Proof.
  unfold load_texts. destruct texts_file as [p|]; [|reflexivity].
  unfold bind, read_text. destruct (fs_lookup (files w) p) as [[|c]|]; reflexivity.
Qed.

Lemma validation_passes (args : Args) (texts : list string) :
  ~ invalid_input args texts ->
  negb (nonempty texts) = false /\
  (args_sequence_length args <=? 0) = false /\
  (args_batch_size args <=? 0) = false /\
  (args_top_k args <? 0) = false /\
  Qlt_bool (args_prune_threshold args) 0 = false.
Proof.
  intros H. unfold invalid_input in H.
  split; [destruct texts; [tauto | reflexivity]|].
  split; [apply Z.leb_gt; lia|]. split; [apply Z.leb_gt; lia|].
  split; [apply Z.ltb_ge; lia|].
  apply Qlt_bool_false_iff. apply Qnot_lt_le. tauto.
Qed.

(** A run whose input is refused: status 2, one message on the error
    stream, and nothing else done. *)
Lemma main_refuses (rt : Runtime) (args : Args) (w : World) (texts : list string) :
  fst (load_texts (args_text args) (args_texts_file args) w) = Ok texts ->
  invalid_input args texts ->
  exists msg,
    main rt args w =
    (Ok 2, {| files := files w; stderr := stderr w ++ [msg]; loaded := loaded w |}).
Proof.
  intros Hload Hbad.
  pose proof (load_texts_world (args_text args) (args_texts_file args) w) as Hw.
  unfold main. unfold bind at 1.
  destruct (load_texts (args_text args) (args_texts_file args) w) as [r w0].
  simpl in Hload, Hw. subst r w0.
  destruct (negb (nonempty texts)) eqn:E1; [eexists; reflexivity|].
  destruct (args_sequence_length args <=? 0) eqn:E2; [eexists; reflexivity|].
  destruct (args_batch_size args <=? 0) eqn:E3; [eexists; reflexivity|].
  destruct (args_top_k args <? 0) eqn:E4; [eexists; reflexivity|].
  destruct (Qlt_bool (args_prune_threshold args) 0) eqn:E5; [eexists; reflexivity|].
  exfalso. apply Z.leb_gt in E2, E3. apply Z.ltb_ge in E4.
  apply Qlt_bool_false_iff in E5.
  destruct Hbad as [-> | [H | [H | [H | H]]]]; try lia; [discriminate | lra].
Qed.

Lemma keeps_log_note_load (what : string) : keeps_log (note_load what).
Proof. intros w. now exists [what]. Qed.

Lemma returns_only_ret {A : Type} (a : A) : returns_only (eq a) (ret a).
Proof. intros w b H. now injection H. Qed.

Create HintDb world_log.

#[local] Hint Resolve same_log_lift same_log_print_err same_log_ret
  same_log_golden_rows same_log_write_jsonl same_log_sha256_file
  same_log_write_metadata : world_log.

Ltac keeps_log_step :=
  first [ apply keeps_log_note_load
        | solve [apply same_log_keeps; auto with world_log]
        | apply keeps_log_bind; [|intros ?] ].

(** A run whose input is accepted: the tokenizer is asked for, and the run
    returns 0 unless it is ended by an exception. *)
Lemma main_proceeds (rt : Runtime) (args : Args) (w : World) (texts : list string) :
  fst (load_texts (args_text args) (args_texts_file args) w) = Ok texts ->
  ~ invalid_input args texts ->
  (fst (main rt args w) = Ok 0 \/ exists e, fst (main rt args w) = Raise e) /\
  (exists l, loaded (snd (main rt args w)) = loaded w ++ "tokenizer"%string :: l).
Proof.
  intros Hload Hgood.
  assert (Hmain : exists (rest : M Z) (w2 : World),
             main rt args w = rest w2 /\ keeps_log rest /\
             returns_only (eq 0) rest /\
             loaded w2 = loaded w ++ ["tokenizer"%string]).
  { pose proof (load_texts_world (args_text args) (args_texts_file args) w) as Hw.
    destruct (validation_passes args texts Hgood) as [E1 [E2 [E3 [E4 E5]]]].
    unfold main. unfold bind at 1.
    destruct (load_texts (args_text args) (args_texts_file args) w) as [r w0].
    simpl in Hload, Hw. subst r w0.
    rewrite E1, E2, E3, E4, E5. cbv zeta.
    unfold bind at 1. unfold print_err at 1. unfold bind at 1. unfold note_load at 1.
    eexists. eexists. split; [reflexivity|].
    split; [repeat keeps_log_step|].
    split; [|reflexivity].
    repeat (apply returns_only_bind; intros ?). apply returns_only_ret. }
  destruct Hmain as [rest [w2 [Hm [Hk [Hr Hl2]]]]]. rewrite Hm. split.
  - destruct (fst (rest w2)) as [n | e] eqn:E; [left | right; now exists e].
    now rewrite (Hr w2 n E).
  - destruct (Hk w2) as [l Hl]. exists l. rewrite Hl, Hl2.
    now rewrite <- app_assoc.
Qed.

(** C6. Validation and exit status. If the texts cannot be loaded the
    exception ends the run. Otherwise, when the text set is empty, the
    sequence length or the batch size is not positive, or top-k or the prune
    threshold is negative, the run returns 2 after one message on the error
    stream, with the file system untouched and no tokenizer or model asked
    for; when none of these holds the tokenizer is asked for and the run
    returns 0 unless an exception ends it. So the status is 2 exactly in
    the first case. *)
Theorem C6_validation_exit_status :
  forall (rt : Runtime) (args : Args) (w : World),
    let texts_loaded := fst (load_texts (args_text args) (args_texts_file args) w) in
    (forall e, texts_loaded = Raise e -> main rt args w = (Raise e, w)) /\
    (forall texts, texts_loaded = Ok texts -> invalid_input args texts ->
       exists msg,
         main rt args w =
         (Ok 2, {| files := files w; stderr := stderr w ++ [msg]; loaded := loaded w |})) /\
    (forall texts, texts_loaded = Ok texts -> ~ invalid_input args texts ->
       (fst (main rt args w) = Ok 0 \/ exists e, fst (main rt args w) = Raise e) /\
       (exists l, loaded (snd (main rt args w)) = loaded w ++ "tokenizer"%string :: l)) /\
    (fst (main rt args w) = Ok 2 <->
     exists texts, texts_loaded = Ok texts /\ invalid_input args texts).
Proof.
  intros rt args w texts_loaded.
  assert (Hdec : forall texts, invalid_input args texts \/ ~ invalid_input args texts).
  { intros texts. unfold invalid_input.
    destruct texts as [|t texts]; [left; now left|].
    destruct (Z_le_gt_dec (args_sequence_length args) 0); [left; tauto|].
    destruct (Z_le_gt_dec (args_batch_size args) 0); [left; tauto|].
    destruct (Z_lt_ge_dec (args_top_k args) 0); [left; tauto|].
    destruct (Qlt_le_dec (args_prune_threshold args) 0); [left; tauto|].
    right. intros [H | [H | [H | [H | H]]]]; try discriminate; try lia; lra. }
  split; [|split; [|split]].
  - intros e He.
    pose proof (load_texts_world (args_text args) (args_texts_file args) w) as Hw.
    unfold main. unfold bind at 1. unfold texts_loaded in He.
    destruct (load_texts (args_text args) (args_texts_file args) w) as [r w0].
    simpl in He, Hw. now subst r w0.
  - intros texts Hl Hbad. now apply (main_refuses rt args w texts).
  - intros texts Hl Hgood. now apply (main_proceeds rt args w texts).
  - split.
    + intros H2. destruct texts_loaded as [texts | e] eqn:E.
      * exists texts. split; [reflexivity|].
        destruct (Hdec texts) as [Hbad | Hgood]; [exact Hbad|].
        destruct (main_proceeds rt args w texts E Hgood) as [[H0 | [e H0]] _];
          rewrite H0 in H2; discriminate.
      * pose proof (load_texts_world (args_text args) (args_texts_file args) w) as Hw.
        exfalso. revert H2. unfold main. unfold bind at 1. unfold texts_loaded in E.
        destruct (load_texts (args_text args) (args_texts_file args) w) as [r w0].
        simpl in E. subst r. discriminate.
    + intros [texts [Hl Hbad]].
      destruct (main_refuses rt args w texts Hl Hbad) as [msg Hm]. now rewrite Hm.
Qed.

(** ** The small instance at work *)

Lemma toy_texts_well_shaped :
  forall text, In text toy_texts ->
    let enc := tokenize toy_tokenizer text (cfg_sequence_length toy_cfg) in
    well_shaped 3 (forward toy_model enc) (attention_mask enc).
Proof.
  intros text Hin enc. unfold enc. simpl in Hin.
  destruct Hin as [<- | [<- | [<- | []]]];
    (split; [vm_compute; discriminate | split; [reflexivity | vm_compute; repeat constructor]]).
Defined.


(** The rows of the instance with batches of two. *)
Lemma C5_rows_witness :
  0 < 2 /\
  (forall text, In text toy_texts ->
     let enc := tokenize toy_tokenizer text (cfg_sequence_length toy_cfg) in
     well_shaped 3 (forward toy_model enc) (attention_mask enc)) /\
  exists rows,
    fst (golden_rows toy_runtime toy_tokenizer toy_model (with_batch_size toy_cfg 2)
           toy_texts toy_world) = Ok rows /\
    length rows = length toy_texts.
Proof.
  split; [lia|]. split; [exact toy_texts_well_shaped|].
  destruct (C5_rows_independent_of_batch_size toy_runtime toy_tokenizer toy_model toy_cfg
              toy_texts 3 toy_world 2 ltac:(lia) toy_texts_well_shaped)
    as [_ [rows [H1 [H2 _]]]].
  exists rows. split; [exact H1 | exact H2].
Defined.

(** A row with an exact zero and a tie: threshold 0 drops the zero, and of
    the two dimensions of value 1/2 the one with the smaller index is kept. *)
Example dense_row_to_sparse_tie :
  dense_row_to_sparse [1 # 2; 0; 1 # 2; 1 # 4; 9 # 10]%Q toy_tokenizer 2 0%Q true =
  {| indices := [0; 4]; values := [1 # 2; 9 # 10]%Q;
     labels := ["tok0"; "tok4"]%string |}.
Proof. reflexivity. Qed.

Example dense_row_to_sparse_unbounded :
  indices (dense_row_to_sparse [1 # 2; 0; 1 # 2; 1 # 4; 9 # 10]%Q toy_tokenizer 0 0%Q false) =
  [0; 2; 3; 4].
Proof. reflexivity. Qed.

(** The dense rows of the instance: the last dimension, whose logits are
    negative, is an exact zero, and the sparse conversion drops it. *)
Example toy_dense_rows :
  dense_rows toy_runtime toy_texts toy_tokenizer toy_model toy_cfg =
  Ok [[0; 2 # 6; 0]; [4 # 20; 2 # 6; 0]; [12 # 28; 2 # 6; 0]]%Q /\
  option_map indices
    (match encode_batch_sparse toy_runtime toy_texts toy_tokenizer toy_model toy_cfg with
     | Ok vectors => nth_error vectors 1
     | Raise _ => None
     end) = Some [0; 1].
Proof. split; reflexivity. Qed.

Example batched_five_by_two :
  batched ["a"; "b"; "c"; "d"; "e"]%string 2 =
  Ok [["a"; "b"]; ["c"; "d"]; ["e"]]%string.
Proof. reflexivity. Qed.

(** A whole run: one inline text and two lines of the file, batches of two. *)
Example main_toy_run :
  let w' := snd (main toy_runtime toy_args toy_world) in
  fst (main toy_runtime toy_args toy_world) = Ok 0 /\
  loaded w' = ["tokenizer"; "model"]%string /\
  files w' ["out"; "v1"; "golden.jsonl"]%string =
    Some (File ("s1:ab" ++ newline ++ "s2:c" ++ newline ++ "s3:de" ++ newline)%string) /\
  files w' ["out"; "v1"]%string = Some Dir.
Proof. vm_compute. repeat split. Qed.

(** The same run with batch size 0 is refused. *)
Example main_toy_refused :
  main toy_runtime
    {| args_text := ["ab"%string];
       args_texts_file := None;
       args_output_jsonl := ["out"; "v1"; "golden.jsonl"]%string;
       args_metadata_path := None;
       args_model_name := "toy";
       args_sequence_length := 3;
       args_batch_size := 0;
       args_top_k := 2;
       args_prune_threshold := 0%Q;
       args_with_labels := true;
       args_device := "auto";
       args_hf_token_env := "HF_TOKEN" |} toy_world =
  (Ok 2, {| files := files toy_world;
            stderr := ["error: --batch-size must be > 0"%string];
            loaded := [] |}).
Proof. reflexivity. Qed.

(** * Further properties *)

(** ** batched *)

(** The batches of a positive batch size, as slices of [size] items. *)
Lemma batched_chunks (items : list string) (batch_size : Z) :
  0 < batch_size ->
  batched items batch_size =
  Ok (map (fun i => firstn (Z.to_nat batch_size)
                      (skipn (i * Z.to_nat batch_size) items))
          (seq 0 (Z.to_nat ((Z.of_nat (length items) + batch_size - 1) / batch_size)))).
Proof.
  intros Hpos. unfold batched, range0.
  replace (batch_size =? 0) with false by (symmetry; apply Z.eqb_neq; lia).
  replace (batch_size <? 0) with false by (symmetry; apply Z.ltb_ge; lia).
  simpl. f_equal. rewrite map_map. apply map_ext. intros i.
  rewrite slice_nonneg by nia. f_equal; [f_equal; lia|]. f_equal. nia.
Qed.

Lemma ceil_div_bounds (len size : Z) :
  0 <= len -> 0 < size ->
  let n := (len + size - 1) / size in
  0 <= n /\ len <= n * size /\ (n - 1) * size < len \/ (len = 0 /\ n = 0).
Proof.
  intros Hlen Hsize n.
  pose proof (Z.div_mod (len + size - 1) size ltac:(lia)) as Hdm.
  pose proof (Z.mod_pos_bound (len + size - 1) size Hsize) as Hmod.
  fold n in Hdm.
  destruct (Z.eq_dec len 0) as [-> | Hne].
  - right. split; [reflexivity|]. unfold n.
    apply Z.div_small. lia.
  - left. assert (0 <= n) by (apply Z.div_pos; lia). nia.
Qed.

(** X1. With a positive batch size the batches are a partition of the
    items in order: put one after the other they give the items back, no
    batch is empty, every batch but the last has exactly [batch_size]
    items and the last has at most as many, and their number is the
    quotient of the number of items by the batch size, rounded up. *)
Theorem X1_batched_partition :
  forall (items : list string) (batch_size : Z),
    0 < batch_size ->
    exists batches,
      batched items batch_size = Ok batches /\
      concat batches = items /\
      Forall (fun batch => batch <> [] /\ Z.of_nat (length batch) <= batch_size) batches /\
      (forall i, (S i < length batches)%nat ->
         Z.of_nat (length (nth i batches [])) = batch_size) /\
      Z.of_nat (length batches) = (Z.of_nat (length items) + batch_size - 1) / batch_size.
Proof.
  intros items bs Hpos.
  destruct (batched_positive items bs Hpos) as [batches [Hb [Hc _]]].
  exists batches. split; [exact Hb|]. split; [exact Hc|].
  rewrite (batched_chunks items bs Hpos) in Hb. injection Hb as Hb.
  set (len := Z.of_nat (length items)) in *.
  set (n := (len + bs - 1) / bs) in *.
  set (size := Z.to_nat bs) in *.
  assert (Hn : 0 <= n /\ len <= n * bs /\ (n - 1) * bs < len \/ (len = 0 /\ n = 0))
    by (apply ceil_div_bounds; unfold len; lia).
  assert (Hlenb : length batches = Z.to_nat n).
  { rewrite <- Hb. now rewrite length_map, length_seq. }
  assert (Hchunk : forall i, (i < Z.to_nat n)%nat ->
            nth i batches [] = firstn size (skipn (i * size) items)).
  { intros i Hi. rewrite <- Hb.
    rewrite (nth_indep _ [] (firstn size (skipn (0 * size) items)))
      by (rewrite length_map, length_seq; exact Hi).
    rewrite (map_nth (fun i => firstn size (skipn (i * size) items))).
    now rewrite seq_nth. }
  split; [|split].
  - apply Forall_forall. intros batch Hin.
    apply (In_nth _ _ []) in Hin. destruct Hin as [i [Hi Hnth]].
    rewrite Hlenb in Hi. rewrite (Hchunk i Hi) in Hnth. subst batch.
    assert (Hl : length (firstn size (skipn (i * size) items)) =
                 Nat.min size (length items - i * size))
      by now rewrite length_firstn, length_skipn.
    split.
    + intros E. rewrite E in Hl. simpl in Hl. unfold size, len in *. nia.
    + rewrite Hl. unfold size. lia.
  - intros i Hi. rewrite Hlenb in Hi. rewrite (Hchunk i) by lia.
    rewrite length_firstn, length_skipn. unfold size, len in *. nia.
  - rewrite Hlenb. destruct Hn as [[Hn _] | [_ Hn]]; lia.
Qed.

(** X2. The other batch sizes and the small inputs. A batch size of zero
    raises [ValueError], a negative one gives no batch at all (so the
    items are dropped), no items give no batch, and a batch size that is
    at least the number of items gives the items as one batch. *)
Theorem X2_batched_edges :
  forall (items : list string) (batch_size : Z),
    (batch_size = 0 -> batched items batch_size = Raise ValueError) /\
    (batch_size < 0 -> batched items batch_size = Ok []) /\
    (batch_size <> 0 -> items = [] -> batched items batch_size = Ok []) /\
    (items <> [] -> Z.of_nat (length items) <= batch_size ->
       batched items batch_size = Ok [items]).
Proof.
  intros items bs. split; [|split; [|split]].
  - intros ->. reflexivity.
  - intros H. unfold batched, range0.
    replace (bs =? 0) with false by (symmetry; apply Z.eqb_neq; lia).
    replace (bs <? 0) with true by (symmetry; apply Z.ltb_lt; lia).
    reflexivity.
  - intros Hne ->. unfold batched, range0.
    apply Z.eqb_neq in Hne. rewrite Hne.
    destruct (bs <? 0) eqn:E; [reflexivity|]. apply Z.ltb_ge in E.
    apply Z.eqb_neq in Hne. simpl.
    rewrite Z.div_small by lia. reflexivity.
  - intros Hne Hle.
    assert (Hlen : 1 <= Z.of_nat (length items))
      by (destruct items; [contradiction | simpl length; lia]).
    assert (Hpos : 0 < bs) by lia.
    rewrite (batched_chunks items bs Hpos).
    replace ((Z.of_nat (length items) + bs - 1) / bs) with 1.
    + simpl. rewrite firstn_all2 by lia. reflexivity.
    + apply Z.div_unique with (Z.of_nat (length items) - 1).
      * left. lia.
      * lia.
Qed.

(** ** dense_row_to_sparse, further *)


Lemma enumerate_from_length {A : Type} (l : list A) (n : Z) :
  length (enumerate_from n l) = length l.
Proof.
  revert n. induction l as [|x l IH]; intros n; simpl; [reflexivity | now rewrite IH].
Qed.



(** X3. The three sequences of a sparse vector go together: the value at
    a position is the value the row has at the index of that position, the
    index is a dimension of the row, and with labels requested the label at
    that position is the token of the index. *)
Theorem X3_sparse_vector_aligned :
  forall (row : list pyfloat) (tokenizer : Tokenizer) (top_k : Z)
         (prune_threshold : pyfloat) (with_labels : bool),
    let sv := dense_row_to_sparse row tokenizer top_k prune_threshold with_labels in
    (forall k i, nth_error (indices sv) k = Some i ->
       0 <= i < Z.of_nat (length row) /\
       nth_error (values sv) k = nth_error row (Z.to_nat i)) /\
    (with_labels = true ->
     forall k i, nth_error (indices sv) k = Some i ->
       nth_error (labels sv) k = Some (id_to_token tokenizer i)).
Proof.
  intros row tok top_k t wl sv. split.
  - intros k i Hk. unfold sv in *. simpl in *. fold (final_pairs row top_k t) in *.
    rewrite nth_error_map in Hk.
    destruct (nth_error (final_pairs row top_k t) k) as [[j v]|] eqn:E; [|discriminate].
    simpl in Hk. injection Hk as ->.
    rewrite nth_error_map, E. simpl.
    apply nth_error_In, final_pairs_In, prune_pairs_In in E.
    destruct E as [Hi [Hn _]]. split; [|now rewrite Hn].
    split; [exact Hi|].
    assert (Z.to_nat i < length row)%nat by (apply nth_error_Some; congruence). lia.
  - intros -> k i Hk. unfold sv in *. simpl in *. fold (final_pairs row top_k t) in *.
    destruct (map fst (final_pairs row top_k t)) as [|j l] eqn:E.
    + destruct k; discriminate.
    + simpl nonempty. cbv iota. unfold convert_ids_to_tokens.
      rewrite nth_error_map, Hk. reflexivity.
Qed.


(** X5. A larger limit keeps more: every entry kept under a positive
    [top_k] is kept under any larger one. *)
Theorem X5_top_k_monotone :
  forall (row : list pyfloat) (tokenizer : Tokenizer) (top_k top_k' : Z)
         (prune_threshold : pyfloat) (with_labels : bool),
    0 < top_k <= top_k' ->
    forall p,
      In p (kept_pairs (dense_row_to_sparse row tokenizer top_k prune_threshold with_labels)) ->
      In p (kept_pairs (dense_row_to_sparse row tokenizer top_k' prune_threshold with_labels)).
Proof.
  intros row tok k k' t wl Hk p. rewrite !kept_pairs_final. intros Hp.
  apply (Permutation_in _ (final_pairs_perm row k t)) in Hp.
  apply (Permutation_in _ (Permutation_sym (final_pairs_perm row k' t))).
  unfold select_top_k in *.
  set (pairs := prune_pairs row t) in *.
  destruct ((0 <? k') && (k' <? Z.of_nat (length pairs))) eqn:E'.
  - apply andb_true_iff in E'. destruct E' as [_ E']. apply Z.ltb_lt in E'.
    replace ((0 <? k) && (k <? Z.of_nat (length pairs))) with true in Hp
      by (symmetry; apply andb_true_iff; rewrite !Z.ltb_lt; lia).
    rewrite <- (firstn_skipn (Z.to_nat k) (firstn (Z.to_nat k') _)).
    apply in_or_app. left. rewrite firstn_firstn.
    now replace (Nat.min (Z.to_nat k) (Z.to_nat k')) with (Z.to_nat k) by lia.
  - destruct ((0 <? k) && (k <? Z.of_nat (length pairs))); [|exact Hp].
    apply In_firstn in Hp. now apply (Permutation_in _ (sort_topk_perm pairs)).
Qed.


(** ** resolve_device, further *)

(** X7. The resolved device is never "auto"; resolving it again changes
    nothing; and for each of the four choices of the command line it is one
    of "cpu", "cuda" and "mps". *)
Theorem X7_resolve_device_range :
  forall (rt : Runtime) (device_arg : string),
    resolve_device rt device_arg <> "auto"%string /\
    resolve_device rt (resolve_device rt device_arg) = resolve_device rt device_arg /\
    (In device_arg ["auto"; "cpu"; "cuda"; "mps"]%string ->
     In (resolve_device rt device_arg) ["cpu"; "cuda"; "mps"]%string).
Proof.
  intros rt d.
  assert (Hne : resolve_device rt d <> "auto"%string).
  { unfold resolve_device. destruct (d =? "auto")%string eqn:E; simpl.
    - destruct (cuda_is_available rt); [discriminate|].
      destruct (backends_has_mps rt && mps_is_available rt); discriminate.
    - now apply String.eqb_neq. }
  split; [exact Hne|]. split.
  - apply String.eqb_neq in Hne. unfold resolve_device at 1. now rewrite Hne.
  - intros Hin. unfold resolve_device.
    destruct (d =? "auto")%string eqn:E; simpl.
    + destruct (cuda_is_available rt); [simpl; tauto|].
      destruct (backends_has_mps rt && mps_is_available rt); simpl; tauto.
    + apply String.eqb_neq in E. simpl in Hin.
      destruct Hin as [H | [H | [H | [H | []]]]]; subst; simpl; tauto.
Qed.

(** ** load_texts, further *)


(** ** The file system, further *)

Lemma confined_bind {A B : Type} (S : Path -> Prop) (m : M A) (k : A -> M B) :
  confined S m -> (forall a, confined S (k a)) -> confined S (bind m k).
Proof.
  intros Hm Hk w q Hq. unfold bind. specialize (Hm w q Hq).
  destruct (m w) as [[a|e] w1]; simpl in *.
  - now rewrite (Hk a w1 q Hq).
  - exact Hm.
Qed.

Lemma confined_weaken {A : Type} (S S' : Path -> Prop) (m : M A) :
  (forall q, S q -> S' q) -> confined S m -> confined S' m.
Proof. intros H Hm w q Hq. apply Hm. intros HS. apply Hq. now apply H. Qed.

Lemma confined_ret {A : Type} (S : Path -> Prop) (a : A) : confined S (ret a).
Proof. intros w q _. reflexivity. Qed.

Lemma confined_lift {A : Type} (S : Path -> Prop) (r : result A) : confined S (lift r).
Proof. intros w q _. reflexivity. Qed.

Lemma confined_print_err (S : Path -> Prop) (msg : string) : confined S (print_err msg).
Proof. intros w q _. reflexivity. Qed.

Lemma confined_note_load (S : Path -> Prop) (what : string) : confined S (note_load what).
Proof. intros w q _. reflexivity. Qed.

Lemma confined_read_text (S : Path -> Prop) (p : Path) : confined S (read_text p).
Proof.
  intros w q _. unfold read_text.
  destruct (fs_lookup (files w) p) as [[|c]|]; reflexivity.
Qed.

Lemma confined_open_w (p : Path) : confined (eq p) (open_w p).
Proof.
  intros w q Hq. unfold open_w.
  destruct (fs_lookup (files w) (parent p)) as [[|c]|]; try reflexivity.
  destruct (fs_lookup (files w) p) as [[|c]|]; try reflexivity;
    simpl; apply fs_set_other; congruence.
Qed.

Lemma confined_handle_write (p : Path) (s : string) : confined (eq p) (handle_write p s).
Proof.
  intros w q Hq. unfold handle_write.
  destruct (files w p) as [[|c]|]; try reflexivity.
  simpl. apply fs_set_other. congruence.
Qed.

Lemma confined_for_each {A : Type} (S : Path -> Prop) (l : list A) (body : A -> M unit) :
  (forall x, confined S (body x)) -> confined S (for_each l body).
Proof.
  intros H. induction l as [|x l IH]; simpl.
  - apply confined_ret.
  - apply confined_bind; [apply H | intros _; exact IH].
Qed.

Lemma confined_mkdir_parents (path : Path) :
  confined (writer_paths path) (mkdir_parents (parent path)).
Proof.
  intros w q Hq. unfold mkdir_parents.
  destruct (mkdir_from [] (parent path) w) as [r w'] eqn:E. simpl.
  destruct (mkdir_from_spec _ _ _ _ _ E) as [_ [_ [Hb _]]].
  destruct (Hb q) as [H | [[pre [post [H1 [H2 H3]]]] _]]; [exact H|].
  exfalso. apply Hq. right. simpl in H3. subst q.
  apply (parent_split path pre post); auto.
  intros ->. simpl in H2. symmetry in H2. apply app_eq_nil in H2. tauto.
Qed.

Lemma confined_writer (path : Path) (body : M unit) :
  confined (eq path) body -> confined (writer_paths path) (writer path body).
Proof.
  intros Hbody. unfold writer.
  apply confined_bind; [apply confined_mkdir_parents | intros _].
  apply (confined_weaken (eq path)); [intros q <-; now left|].
  apply confined_bind; [apply confined_open_w | intros _; exact Hbody].
Qed.

Lemma confined_write_jsonl (rt : Runtime) (path : Path) (rows : list GoldenRow) :
  confined (writer_paths path) (write_jsonl rt path rows).
Proof.
  apply confined_writer. apply confined_for_each. intros row.
  apply confined_bind; [apply confined_handle_write | intros _].
  apply confined_handle_write.
Qed.

Lemma confined_write_metadata (rt : Runtime) (path : Path) (metadata : Metadata) :
  confined (writer_paths path) (write_metadata rt path metadata).
Proof.
  apply confined_writer.
  apply confined_bind; [apply confined_handle_write | intros _].
  apply confined_handle_write.
Qed.

Lemma mkdir_from_raises (todo : list string) :
  forall (done : Path) (w w' : World) (e : exn),
    mkdir_from done todo w = (Raise e, w') ->
    e = NotADirectoryError \/ e = FileExistsError.
Proof.
  induction todo as [|c rest IH]; intros done w w' e H; simpl in H.
  - discriminate.
  - destruct (files w (done ++ [c])) as [[|content]|].
    + now apply IH in H.
    + injection H as <- _. destruct (nonempty rest); tauto.
    + now apply IH in H.
Qed.

Lemma open_w_not_dir (path : Path) (w w' : World) :
  open_w path w = (Ok tt, w') -> fs_lookup (files w) path <> Some Dir.
Proof.
  unfold open_w. intros H.
  destruct (fs_lookup (files w) (parent path)) as [[|c]|]; try discriminate.
  destruct (fs_lookup (files w) path) as [[|c]|]; discriminate.
Qed.

Lemma open_w_raises (path : Path) (w w' : World) (e : exn) :
  fs_lookup (files w) (parent path) = Some Dir ->
  open_w path w = (Raise e, w') -> e = IsADirectoryError /\ w' = w.
Proof.
  unfold open_w. intros -> H.
  destruct (fs_lookup (files w) path) as [[|c]|]; try discriminate.
  injection H as <- <-. now split.
Qed.

Lemma dir_above_parent (q path : Path) :
  dir_above q path -> exists post, parent path = q ++ post.
Proof.
  intros [_ [rest [Hrest ->]]]. exists (removelast rest).
  unfold parent. now apply removelast_app.
Qed.

Lemma writer_returns_writable (path : Path) (body : M unit) (w w' : World) :
  writer path body w = (Ok tt, w') -> writable path w.
Proof.
  intros H. unfold writer, bind in H.
  destruct (mkdir_parents (parent path) w) as [[[]|e] w1] eqn:E1; [|discriminate].
  destruct (open_w path w1) as [[[]|e] w2] eqn:E2; [|discriminate].
  destruct (open_w_inv _ _ _ E2) as [Hne _].
  pose proof (open_w_not_dir _ _ _ E2) as Hnd.
  destruct (mkdir_parents_parent path w w1 Hne E1) as [_ [Hsame _]].
  split.
  - destruct path; [contradiction|]. simpl in *. now rewrite <- Hsame.
  - intros q Hq content Hfile. destruct (dir_above_parent q path Hq) as [post Hpost].
    unfold mkdir_parents in E1.
    destruct (mkdir_from_spec _ _ _ _ _ E1) as [_ [_ [Hb [Hc _]]]].
    specialize (Hc eq_refl q post (proj1 Hq) Hpost). simpl in Hc.
    destruct (Hb q) as [Hq' | [_ [Hq' _]]]; congruence.
Qed.

(** A writer that does not return has written no file: it raised one of
    three exceptions, and the file system differs from the one it found by
    created directories above the target at most. *)
Lemma writer_raises (path : Path) (text : string) (body : M unit) (w w' : World) (e : exn) :
  writes_text path text body ->
  writer path body w = (Raise e, w') ->
  In e [FileExistsError; NotADirectoryError; IsADirectoryError] /\
  forall q, files w' q = files w q \/
            (dir_above q path /\ files w q = None /\ files w' q = Some Dir).
Proof.
  intros Hbody H. destruct (path_dec path []) as [-> | Hne].
  { unfold writer, bind, mkdir_parents, open_w in H. simpl in H.
    injection H as <- <-. split; [simpl; tauto | now left]. }
  unfold writer, bind in H.
  destruct (mkdir_parents (parent path) w) as [[[]|e1] w1] eqn:E1.
  - destruct (mkdir_parents_parent path w w1 Hne E1) as [Hp [Hsame [_ [_ Hframe]]]].
    assert (Hw1 : forall q, files w1 q = files w q \/
              (dir_above q path /\ files w q = None /\ files w1 q = Some Dir)).
    { intros q. destruct (path_dec q path) as [-> | Hq]; [now left | now apply Hframe]. }
    destruct (open_w path w1) as [[[]|e2] w2] eqn:E2.
    + exfalso. destruct (open_w_inv _ _ _ E2) as [_ ->].
      destruct (Hbody (set_files (fs_set (files w1) path (File "")) w1)) as [w3 [E3 _]];
        [simpl; apply fs_set_same|].
      rewrite E3 in H. discriminate.
    + injection H as <- <-. destruct (open_w_raises path w1 w2 e2 Hp E2) as [-> ->].
      split; [simpl; tauto | exact Hw1].
  - injection H as <- <-. unfold mkdir_parents in E1. split.
    + destruct (mkdir_from_raises _ _ _ _ _ E1) as [-> | ->]; simpl; tauto.
    + intros q. destruct (mkdir_from_spec _ _ _ _ _ E1) as [_ [_ [Hb _]]].
      destruct (Hb q) as [Hq | [[pre [post [H1 [H2 H3]]]] Hq]]; [now left | right].
      split; [|exact Hq]. simpl in H3. subst q.
      apply (parent_split path pre post); auto.
Qed.

(** X10. When the writers return and what a failure leaves behind.
    [write_jsonl] returns exactly when its target is writable: no directory
    is in the place of the file and no file in the place of a directory
    above it. When it raises, the exception is [FileExistsError],
    [NotADirectoryError] or [IsADirectoryError], and no file was created,
    emptied or changed: the file system differs by created directories
    above the target at most. The same holds for [write_metadata]. *)
Theorem X10_writers_return_iff_writable :
  forall (rt : Runtime) (path : Path) (rows : list GoldenRow) (metadata : Metadata)
         (w : World),
    ((exists w', write_jsonl rt path rows w = (Ok tt, w')) <-> writable path w) /\
    ((exists w', write_metadata rt path metadata w = (Ok tt, w')) <-> writable path w) /\
    (forall e w',
       write_jsonl rt path rows w = (Raise e, w') \/
       write_metadata rt path metadata w = (Raise e, w') ->
       In e [FileExistsError; NotADirectoryError; IsADirectoryError] /\
       forall q, files w' q = files w q \/
                 (dir_above q path /\ files w q = None /\ files w' q = Some Dir)).
Proof.
  intros rt path rows metadata w. split; [|split].
  - split.
    + intros [w' H]. exact (writer_returns_writable path _ w w' H).
    + apply (writer_succeeds path _ _ (write_jsonl_body rt path rows)).
  - split.
    + intros [w' H]. exact (writer_returns_writable path _ w w' H).
    + apply (writer_succeeds path _ _ (write_metadata_body rt path metadata)).
  - intros e w' [H | H].
    + exact (writer_raises path _ _ w w' e (write_jsonl_body rt path rows) H).
    + exact (writer_raises path _ _ w w' e (write_metadata_body rt path metadata) H).
Qed.

(** X11. Writing again. After [write_jsonl] has returned, a second
    [write_jsonl] to the same path returns too, whatever its rows; the file
    then holds the rows of the second call alone, and nothing else has
    changed, the directories being there already. So writing the same rows
    twice leaves the file as writing them once. *)
Theorem X11_write_jsonl_again :
  forall (rt : Runtime) (path : Path) (rows rows' : list GoldenRow) (w w1 : World),
    write_jsonl rt path rows w = (Ok tt, w1) ->
    exists w2,
      write_jsonl rt path rows' w1 = (Ok tt, w2) /\
      files w2 path = Some (File (jsonl_text rt rows')) /\
      (forall q, q <> path -> files w2 q = files w1 q) /\
      (rows' = rows -> forall q, files w2 q = files w1 q).
Proof.
  intros rt path rows rows' w w1 H1.
  pose proof (writer_written path _ _ (write_jsonl_body rt path rows) w w1 H1)
    as [Hfile1 [_ [_ Hframe1]]].
  pose proof (writer_returns_writable path _ w w1 H1) as [Hnd Hanc].
  assert (Hne : path <> []) by (intros ->; now apply Hnd).
  assert (Hdirs : forall q, dir_above q path -> files w1 q = Some Dir).
  { intros q Hq. destruct (dir_above_parent q path Hq) as [post Hpost].
    unfold write_jsonl, bind in H1.
    destruct (mkdir_parents (parent path) w) as [[[]|e] wa] eqn:Ea; [|discriminate].
    destruct (open_w path wa) as [[[]|e] wb] eqn:Eb; [|discriminate].
    unfold mkdir_parents in Ea.
    destruct (mkdir_from_spec _ _ _ _ _ Ea) as [_ [_ [_ [Hc _]]]].
    specialize (Hc eq_refl q post (proj1 Hq) Hpost). simpl in Hc.
    assert (Hqp : q <> path).
    { destruct Hq as [_ [rest [Hrest ->]]]. intros E. symmetry in E.
      now apply (app_not_self q rest). }
    pose proof (confined_bind (eq path) (open_w path) _ (confined_open_w path)
                  (fun _ => confined_for_each (eq path) rows _
                     (fun row => confined_bind (eq path) _ _
                        (confined_handle_write path (json_dumps rt row))
                        (fun _ => confined_handle_write path newline)))) as Hconf.
    specialize (Hconf wa q ltac:(congruence)). unfold bind in Hconf.
    rewrite Eb in Hconf. rewrite H1 in Hconf. simpl in Hconf. congruence. }
  assert (Hw : writable path w1).
  { split.
    - destruct path; [contradiction|]. simpl. rewrite Hfile1. discriminate.
    - intros q Hq content. rewrite (Hdirs q Hq). discriminate. }
  destruct (writer_succeeds path _ _ (write_jsonl_body rt path rows') w1 Hw) as [w2 H2].
  exists w2. split; [exact H2|].
  pose proof (writer_written path _ _ (write_jsonl_body rt path rows') w1 w2 H2)
    as [Hfile2 [_ [_ Hframe2]]].
  assert (Hother : forall q, q <> path -> files w2 q = files w1 q).
  { intros q Hq. destruct (Hframe2 q Hq) as [E | [Hab [Hnone _]]]; [exact E|].
    rewrite (Hdirs q Hab) in Hnone. discriminate. }
  split; [exact Hfile2|]. split; [exact Hother|].
  intros -> q. destruct (path_dec q path) as [-> | Hq]; [congruence | now apply Hother].
Qed.

(** ** sha256_file, read in chunks *)








(** ** The progress of a run *)

Lemma encode_batches_cons (rt : Runtime) (tokenizer : Tokenizer) (model : Model)
    (cfg : EncodeConfig) (i : Z) (batch : list string) (rest : list (list string))
    (rows : list GoldenRow) (w : World) :
  encode_batches rt tokenizer model cfg i (batch :: rest) rows w =
  let w1 := {| files := files w;
               stderr := stderr w ++ [progress_line i batch];
               loaded := loaded w |} in
  match encode_batch_sparse rt batch tokenizer model cfg with
  | Ok vecs =>
      encode_batches rt tokenizer model cfg (i + 1) rest
        (fold_left add_row (combine batch vecs) rows) w1
  | Raise e => (Raise e, w1)
  end.
Proof.
  cbn [encode_batches]. unfold bind, print_err, lift.
  destruct (encode_batch_sparse rt batch tokenizer model cfg); reflexivity.
Qed.

Lemma encode_batches_world (rt : Runtime) (tokenizer : Tokenizer) (model : Model)
    (cfg : EncodeConfig) (batches : list (list string)) :
  forall (i : Z) (rows : list GoldenRow) (w : World),
    let r := fst (encode_batches rt tokenizer model cfg i batches rows w) in
    let w' := snd (encode_batches rt tokenizer model cfg i batches rows w) in
    files w' = files w /\ loaded w' = loaded w /\
    exists n, (n <= length batches)%nat /\
      stderr w' = stderr w ++ firstn n (progress_lines i batches) /\
      ((exists rows', r = Ok rows') -> n = length batches).
Proof.
  induction batches as [|batch rest IH]; intros i rows w.
  - simpl. split; [reflexivity|]. split; [reflexivity|]. exists 0%nat.
    split; [lia|]. split; [now rewrite app_nil_r | reflexivity].
  - rewrite encode_batches_cons. cbv zeta.
    destruct (encode_batch_sparse rt batch tokenizer model cfg) as [vecs | e].
    + match goal with
      | |- context [encode_batches _ _ _ _ _ _ ?rows1 ?w1] =>
          destruct (IH (i + 1) rows1 w1) as [Hf [Hl [n [Hn [Hs Hok]]]]]
      end.
      split; [exact Hf|]. split; [exact Hl|]. exists (S n).
      split; [simpl; lia|]. split.
      * rewrite Hs. cbn [stderr progress_lines enumerate_from map firstn fst snd].
        now rewrite <- app_assoc.
      * intros Hr. now rewrite (Hok Hr).
    + cbn [fst snd files loaded stderr]. split; [reflexivity|]. split; [reflexivity|].
      exists 1%nat. split; [simpl; lia|]. split; [reflexivity|].
      intros [rows' Hr]. discriminate.
Qed.

Lemma golden_rows_reads_only (rt : Runtime) (tokenizer : Tokenizer) (model : Model)
    (cfg : EncodeConfig) (texts : list string) (w : World) :
  files (snd (golden_rows rt tokenizer model cfg texts w)) = files w /\
  loaded (snd (golden_rows rt tokenizer model cfg texts w)) = loaded w.
Proof.
  unfold golden_rows, bind, lift.
  destruct (batched texts (cfg_batch_size cfg)) as [batches | e0].
  - destruct (encode_batches_world rt tokenizer model cfg batches 1 [] w) as [Hf [Hl _]].
    now split.
  - now split.
Qed.

Lemma golden_rows_progress (rt : Runtime) (tokenizer : Tokenizer) (model : Model)
    (cfg : EncodeConfig) (texts : list string) (w w' : World) (rows : list GoldenRow) :
  golden_rows rt tokenizer model cfg texts w = (Ok rows, w') ->
  exists batches,
    batched texts (cfg_batch_size cfg) = Ok batches /\
    stderr w' = stderr w ++ progress_lines 1 batches.
Proof.
  unfold golden_rows, bind, lift. intros H.
  destruct (batched texts (cfg_batch_size cfg)) as [batches | e0]; [|discriminate].
  destruct (encode_batches_world rt tokenizer model cfg batches 1 [] w)
    as [_ [_ [n [Hn [Hs Hok]]]]].
  rewrite H in Hs, Hok. simpl in Hs, Hok.
  exists batches. split; [reflexivity|].
  rewrite Hs, (Hok (ex_intro _ rows eq_refl)).
  rewrite firstn_all2; [reflexivity|].
  unfold progress_lines. now rewrite length_map, enumerate_from_length.
Qed.

(** X12. The progress of the encoding loop. Encoding touches neither the
    file system nor the log of loads; when it returns it has printed one
    line per batch, in order, numbered from 1 and telling the size of the
    batch; when it raises it has printed the lines up to the batch that
    failed. *)
Theorem X12_golden_rows_progress :
  forall (rt : Runtime) (tokenizer : Tokenizer) (model : Model) (cfg : EncodeConfig)
         (texts : list string) (w : World),
    let r := fst (golden_rows rt tokenizer model cfg texts w) in
    let w' := snd (golden_rows rt tokenizer model cfg texts w) in
    files w' = files w /\ loaded w' = loaded w /\
    (forall rows, r = Ok rows ->
       exists batches,
         batched texts (cfg_batch_size cfg) = Ok batches /\
         stderr w' = stderr w ++ progress_lines 1 batches) /\
    (forall e, r = Raise e ->
       exists lines, stderr w' = stderr w ++ lines /\
         forall batches, batched texts (cfg_batch_size cfg) = Ok batches ->
           exists n, lines = firstn n (progress_lines 1 batches)).
Proof.
  intros rt tok model cfg texts w. unfold golden_rows, bind, lift.
  destruct (batched texts (cfg_batch_size cfg)) as [batches | e0] eqn:Eb.
  - destruct (encode_batches_world rt tok model cfg batches 1 [] w)
      as [Hf [Hl [n [Hn [Hs Hok]]]]].
    split; [exact Hf|]. split; [exact Hl|]. split.
    + intros rows Hr. exists batches. split; [reflexivity|].
      rewrite Hs, (Hok (ex_intro _ rows Hr)).
      rewrite firstn_all2; [reflexivity|].
      unfold progress_lines. now rewrite length_map, enumerate_from_length.
    + intros e He. eexists. split; [exact Hs|].
      intros batches' Hb. injection Hb as <-. now exists n.
  - simpl. split; [reflexivity|]. split; [reflexivity|]. split.
    + intros rows Hr. discriminate.
    + intros e He. exists []. split; [now rewrite app_nil_r|].
      intros batches Hb. discriminate.
Qed.

(** ** main, further *)

Lemma confined_load_texts (S : Path -> Prop) (inline_texts : list string)
    (texts_file : option Path) :
  confined S (load_texts inline_texts texts_file).
Proof.
  unfold load_texts. destruct texts_file as [p|]; [|apply confined_ret].
  apply confined_bind; [apply confined_read_text | intros c; apply confined_ret].
Qed.

Lemma confined_golden_rows (S : Path -> Prop) (rt : Runtime) (tokenizer : Tokenizer)
    (model : Model) (cfg : EncodeConfig) (texts : list string) :
  confined S (golden_rows rt tokenizer model cfg texts).
Proof.
  intros w q _.
  destruct (golden_rows_reads_only rt tokenizer model cfg texts w) as [H _].
  now rewrite H.
Qed.

Lemma confined_sha256_file (S : Path -> Prop) (rt : Runtime) (path : Path) :
  confined S (sha256_file rt path).
Proof.
  unfold sha256_file.
  apply confined_bind; [apply confined_read_text | intros c; apply confined_ret].
Qed.

Ltac confined_step :=
  lazymatch goal with
  | |- confined _ (ret _) => apply confined_ret
  | |- confined _ (lift _) => apply confined_lift
  | |- confined _ (print_err _) => apply confined_print_err
  | |- confined _ (note_load _) => apply confined_note_load
  | |- confined _ (load_texts _ _) => apply confined_load_texts
  | |- confined _ (golden_rows _ _ _ _ _) => apply confined_golden_rows
  | |- confined _ (sha256_file _ _) => apply confined_sha256_file
  | |- confined _ (write_jsonl _ ?p _) =>
      apply (confined_weaken (writer_paths p));
      [intros ? ?; unfold main_paths, metadata_path_of; tauto
      | apply confined_write_jsonl]
  | |- confined _ (write_metadata _ ?p _) =>
      apply (confined_weaken (writer_paths p));
      [intros ? ?; unfold main_paths, metadata_path_of; tauto
      | apply confined_write_metadata]
  | |- confined _ (bind _ _) => apply confined_bind; [|intros ?]
  end.

(** X13. What a run may touch. Whatever its arguments and however it ends
    (refused, ended by an exception, or returning 0), a run changes the
    file system at no other path than its JSONL file, its metadata file and
    the directories above the two. *)
Theorem X13_main_confined :
  forall (rt : Runtime) (args : Args) (w : World) (q : Path),
    ~ main_paths args q ->
    files (snd (main rt args w)) q = files w q.
Proof.
  intros rt args w q Hq.
  assert (Hc : confined (main_paths args) (main rt args)); [|now apply Hc].
  clear. unfold main. confined_step; [confined_step|]. rename a into texts.
  destruct (negb (nonempty texts)); [repeat confined_step|].
  destruct (args_sequence_length args <=? 0); [repeat confined_step|].
  destruct (args_batch_size args <=? 0); [repeat confined_step|].
  destruct (args_top_k args <? 0); [repeat confined_step|].
  destruct (Qlt_bool (args_prune_threshold args) 0); [repeat confined_step|].
  cbv zeta. repeat confined_step.
Qed.

Ltac enter_run Hload Hgood :=
  let Hw := fresh "Hw" in
  let E1 := fresh "E" in let E2 := fresh "E" in let E3 := fresh "E" in
  let E4 := fresh "E" in let E5 := fresh "E" in
  let r := fresh "r" in let w0 := fresh "w" in
  match type of Hload with
  | fst (load_texts ?a ?f ?w) = Ok ?texts =>
      pose proof (load_texts_world a f w) as Hw;
      destruct (validation_passes _ texts Hgood) as [E1 [E2 [E3 [E4 E5]]]];
      unfold main; unfold bind at 1;
      destruct (load_texts a f w) as [r w0];
      simpl in Hload, Hw; subst r w0;
      rewrite E1, E2, E3, E4, E5; cbv zeta;
      unfold bind at 1; unfold print_err at 1;
      unfold bind at 1; unfold note_load at 1;
      unfold bind at 1; unfold lift at 1;
      cbn [cfg_model_name cfg_hf_token cfg_device files stderr loaded]
  end.

(** X14. Failing loads. When the input is accepted and the tokenizer, the
    model, or moving the model to the device raises, the run ends with that
    exception; the file system is exactly as before, the error stream has
    the one line announcing the load, and the log tells which loads were
    asked for. *)
Theorem X14_main_load_failure :
  forall (rt : Runtime) (args : Args) (w : World) (texts : list string) (e : exn),
    fst (load_texts (args_text args) (args_texts_file args) w) = Ok texts ->
    ~ invalid_input args texts ->
    let name := args_model_name args in
    let token := hf_token_from_env rt (args_hf_token_env args) in
    let announced := stderr w ++ [("Loading tokenizer/model: " ++ name)%string] in
    (tokenizer_from_pretrained rt name token = Raise e ->
       main rt args w =
       (Raise e, {| files := files w; stderr := announced;
                    loaded := loaded w ++ ["tokenizer"%string] |})) /\
    (forall tokenizer model,
       tokenizer_from_pretrained rt name token = Ok tokenizer ->
       model_from_pretrained rt name token = Raise e \/
       (model_from_pretrained rt name token = Ok model /\
        model_to rt model (resolve_device rt (args_device args)) = Raise e) ->
       main rt args w =
       (Raise e, {| files := files w; stderr := announced;
                    loaded := loaded w ++ ["tokenizer"; "model"]%string |})).
Proof.
  intros rt args w texts e Hload Hgood name token announced. split.
  - intros Htok. enter_run Hload Hgood. fold name token. rewrite Htok. reflexivity.
  - intros tok model Htok Hmodel. enter_run Hload Hgood. fold name token.
    rewrite Htok.
    unfold bind at 1. unfold note_load at 1. unfold bind at 1. unfold lift at 1.
    cbn [cfg_model_name cfg_hf_token cfg_device files stderr loaded].
    fold name token. rewrite <- app_assoc. simpl app.
    destruct Hmodel as [Hm | [Hm Hto]]; rewrite Hm; [reflexivity|].
    unfold bind at 1. unfold lift at 1.
    cbn [cfg_model_name cfg_hf_token cfg_device files stderr loaded].
    rewrite Hto. reflexivity.
Qed.

Lemma bind_Ok_inv {A B : Type} (m : M A) (k : A -> M B) (w w' : World) (b : B) :
  bind m k w = (Ok b, w') ->
  exists a w1, m w = (Ok a, w1) /\ k a w1 = (Ok b, w').
Proof.
  unfold bind. destruct (m w) as [[a|e] w1]; [|discriminate].
  intros H. now exists a, w1.
Qed.

Lemma main_returns_valid (rt : Runtime) (args : Args) (w w' : World) :
  main rt args w = (Ok 0, w') ->
  exists texts,
    fst (load_texts (args_text args) (args_texts_file args) w) = Ok texts /\
    ~ invalid_input args texts.
Proof.
  intros H.
  destruct (fst (load_texts (args_text args) (args_texts_file args) w))
    as [texts | e] eqn:E.
  - exists texts. split; [reflexivity|]. intros Hbad.
    destruct (main_refuses rt args w texts E Hbad) as [msg Hm].
    rewrite Hm in H. discriminate.
  - exfalso. revert H. unfold main. unfold bind at 1.
    destruct (load_texts (args_text args) (args_texts_file args) w) as [r w0].
    simpl in E. subst r. discriminate.
Qed.

(** The run after the loads, as a sequence of steps that returned. *)
Lemma main_returns_steps (rt : Runtime) (args : Args) (w w' : World) :
  main rt args w = (Ok 0, w') ->
  let cfg := encode_config rt args in
  let out := args_output_jsonl args in
  let meta := metadata_path_of args in
  exists texts tokenizer model0 model rows digest w4 w5 w6 w7,
    fst (load_texts (args_text args) (args_texts_file args) w) = Ok texts /\
    ~ invalid_input args texts /\
    tokenizer_from_pretrained rt (cfg_model_name cfg) (cfg_hf_token cfg) = Ok tokenizer /\
    model_from_pretrained rt (cfg_model_name cfg) (cfg_hf_token cfg) = Ok model0 /\
    model_to rt model0 (cfg_device cfg) = Ok model /\
    w4 = {| files := files w;
            stderr := stderr w ++ [("Loading tokenizer/model: " ++ cfg_model_name cfg)%string];
            loaded := loaded w ++ ["tokenizer"; "model"]%string |} /\
    golden_rows rt tokenizer model cfg texts w4 = (Ok rows, w5) /\
    write_jsonl rt out rows w5 = (Ok tt, w6) /\
    sha256_file rt out w6 = (Ok digest, w6) /\
    write_metadata rt meta (metadata_of rt args rows digest) w6 = (Ok tt, w7) /\
    w' = {| files := files w7;
            stderr := stderr w7 ++
              [("Wrote JSONL: " ++ str_path out)%string;
               ("Wrote metadata: " ++ str_path meta)%string;
               ("Digest (SHA-256): " ++ digest)%string];
            loaded := loaded w7 |}.
Proof.
  intros H cfg out meta.
  destruct (main_returns_valid rt args w w' H) as [texts [Hload Hgood]].
  exists texts. revert H. enter_run Hload Hgood.
  destruct (tokenizer_from_pretrained rt (args_model_name args)
              (hf_token_from_env rt (args_hf_token_env args))) as [tok | e] eqn:Stok;
    [|discriminate].
  intros H.
  apply bind_Ok_inv in H. destruct H as [[] [w2 [S2 H]]].
  unfold note_load in S2. injection S2 as <-.
  apply bind_Ok_inv in H. destruct H as [model0 [w3 [S3 H]]].
  unfold lift in S3. injection S3 as S3 <-.
  apply bind_Ok_inv in H. destruct H as [model [w3 [S4 H]]].
  unfold lift in S4. injection S4 as S4 <-.
  apply bind_Ok_inv in H. destruct H as [rows [w5 [S5 H]]].
  apply bind_Ok_inv in H. destruct H as [[] [w6 [S6 H]]].
  apply bind_Ok_inv in H. destruct H as [digest [w6' [S7 H]]].
  assert (w6' = w6).
  { pose proof (load_texts_world [] (Some (args_output_jsonl args)) w6) as Hs.
    clear - S7. unfold sha256_file, bind, read_text in S7.
    destruct (fs_lookup (files w6) (args_output_jsonl args)) as [[|c]|];
      try discriminate. unfold ret in S7. now injection S7. }
  subst w6'.
  apply bind_Ok_inv in H. destruct H as [[] [w7 [S8 H]]].
  unfold bind, print_err, ret in H. cbn [files stderr loaded] in H.
  injection H as <-.
  exists tok, model0, model, rows, digest.
  eexists. exists w5, w6, w7.
  split; [reflexivity|]. split; [exact Hgood|].
  split; [exact Stok|]. split; [exact S3|]. split; [exact S4|].
  split; [reflexivity|].
  split; [rewrite <- app_assoc in S5; exact S5|].
  split; [exact S6|]. split; [exact S7|]. split; [exact S8|].
  rewrite <- !app_assoc. reflexivity.
Qed.

(** X15. What a run that returns 0 has done. The texts were loaded and
    accepted, the tokenizer and the model were loaded and the model moved
    to the resolved device, and every text was encoded. The rows are those
    of the texts in order, numbered from [s1]; the metadata file holds the
    metadata document and a line feed, with the number of texts as row
    count and, as digest, the digest of the JSONL text of the rows; the
    JSONL file holds that text, unless the metadata path is the JSONL path
    itself, in which case the metadata has replaced it. The log has the two
    loads, and the error stream has got the line announcing the load, one
    progress line per batch, and the three closing lines, in this order. *)
Theorem X15_main_success :
  forall (rt : Runtime) (args : Args) (w w' : World),
    main rt args w = (Ok 0, w') ->
    let cfg := encode_config rt args in
    let out := args_output_jsonl args in
    let meta := metadata_path_of args in
    exists texts tokenizer model vecs batches,
      fst (load_texts (args_text args) (args_texts_file args) w) = Ok texts /\
      ~ invalid_input args texts /\
      tokenizer_from_pretrained rt (cfg_model_name cfg) (cfg_hf_token cfg) = Ok tokenizer /\
      (exists model0,
         model_from_pretrained rt (cfg_model_name cfg) (cfg_hf_token cfg) = Ok model0 /\
         model_to rt model0 (cfg_device cfg) = Ok model) /\
      sequence_results (map (encode_text rt tokenizer model cfg) texts) = Ok vecs /\
      batched texts (cfg_batch_size cfg) = Ok batches /\
      let rows := numbered_rows 0 (combine texts vecs) in
      let digest := sha256_hexdigest rt (jsonl_text rt rows) in
      files w' meta =
        Some (File (json_dump rt (metadata_of rt args rows digest) ++ newline)) /\
      (meta <> out -> files w' out = Some (File (jsonl_text rt rows))) /\
      row_count (metadata_of rt args rows digest) = Z.of_nat (length texts) /\
      loaded w' = loaded w ++ ["tokenizer"; "model"]%string /\
      stderr w' =
        stderr w
        ++ [("Loading tokenizer/model: " ++ cfg_model_name cfg)%string]
        ++ progress_lines 1 batches
        ++ [("Wrote JSONL: " ++ str_path out)%string;
            ("Wrote metadata: " ++ str_path meta)%string;
            ("Digest (SHA-256): " ++ digest)%string].
Proof.
  intros rt args w w' H cfg out meta.
  destruct (main_returns_steps rt args w w' H)
    as [texts [tok [model0 [model [rows [digest [w4 [w5 [w6 [w7 Hs]]]]]]]]]].
  fold cfg out meta in Hs.
  destruct Hs as [Hload [Hgood [Htok [Hm0 [Hm [Hw4 [Hrows [Hwj [Hsha [Hwm Hw']]]]]]]]]].
  assert (Hbs : 0 < cfg_batch_size cfg).
  { unfold invalid_input in Hgood. simpl. lia. }
  pose proof (golden_rows_result rt tok model cfg texts w4 Hbs) as Hres.
  rewrite Hrows in Hres. simpl in Hres.
  destruct (sequence_results (map (encode_text rt tok model cfg) texts))
    as [vecs | e] eqn:Evecs; [|discriminate].
  simpl in Hres. injection Hres as Hres.
  destruct (golden_rows_progress rt tok model cfg texts w4 w5 rows Hrows)
    as [batches [Hb Hprog]].
  destruct (golden_rows_reads_only rt tok model cfg texts w4) as [Hf5 Hl5].
  rewrite Hrows in Hf5, Hl5. simpl in Hf5, Hl5.
  pose proof (writer_written out _ _ (write_jsonl_body rt out rows) w5 w6 Hwj)
    as [Hfile6 [Hs6 [Hl6 _]]].
  pose proof (writer_written meta _ _
                (write_metadata_body rt meta (metadata_of rt args rows digest)) w6 w7 Hwm)
    as [Hfile7 [Hs7 [Hl7 Hframe7]]].
  assert (Hdigest : digest = sha256_hexdigest rt (jsonl_text rt rows)).
  { unfold sha256_file, bind, read_text, ret in Hsha.
    destruct out as [|c out']; [simpl in Hsha; discriminate|].
    simpl in Hsha. rewrite Hfile6 in Hsha. now injection Hsha. }
  exists texts, tok, model, vecs, batches.
  split; [exact Hload|]. split; [exact Hgood|]. split; [exact Htok|].
  split; [now exists model0|]. split; [exact Evecs|]. split; [exact Hb|].
  cbv zeta. rewrite <- Hres, <- Hdigest. subst w'. cbn [files stderr loaded].
  split; [exact Hfile7|]. split; [|split; [|split]].
  - intros Hne. destruct (Hframe7 out (not_eq_sym Hne)) as [E | [_ [E _]]];
      [now rewrite E | rewrite Hfile6 in E; discriminate].
  - cbn [row_count metadata_of]. rewrite Hres, numbered_rows_length, length_combine.
    apply sequence_results_length in Evecs. rewrite length_map in Evecs. lia.
  - rewrite Hl7, Hl6, Hl5, Hw4. reflexivity.
  - rewrite Hs7, Hs6, Hprog, Hw4. cbn [stderr]. now rewrite <- !app_assoc.
Qed.

(** X16. Validation counts the texts and does not look into them: a run
    with an inline text, be it the empty string, and valid numbers is
    accepted; it asks for the tokenizer and does not return 2. *)
Theorem X16_blank_inline_text_accepted :
  forall (rt : Runtime) (args : Args) (w : World),
    args_text args <> [] ->
    args_texts_file args = None ->
    0 < args_sequence_length args -> 0 < args_batch_size args ->
    0 <= args_top_k args -> (0 <= args_prune_threshold args)%Q ->
    fst (load_texts (args_text args) (args_texts_file args) w) = Ok (args_text args) /\
    fst (main rt args w) <> Ok 2 /\
    exists l, loaded (snd (main rt args w)) = loaded w ++ "tokenizer"%string :: l.
Proof.
  intros rt args w Htexts Hfile Hseq Hbs Hk Ht.
  assert (Hload : fst (load_texts (args_text args) (args_texts_file args) w) =
                  Ok (args_text args)) by now rewrite Hfile.
  assert (Hgood : ~ invalid_input args (args_text args)).
  { intros [H | [H | [H | [H | H]]]]; try contradiction; try lia; lra. }
  destruct (main_proceeds rt args w _ Hload Hgood) as [Hr Hl].
  split; [exact Hload|]. split; [|exact Hl].
  destruct Hr as [Hr | [e Hr]]; rewrite Hr; discriminate.
Qed.

(** ** The texts file, written and read back *)

Lemma no_line_break_app (a b : string) :
  no_line_break (a ++ b) = no_line_break a && no_line_break b.
Proof.
  induction a as [|c a IH]; simpl; [reflexivity|]. now rewrite IH, !andb_assoc.
Qed.

Lemma file_lines_first (text rest : string) :
  no_line_break text = true ->
  file_lines (text ++ newline ++ rest) = (text ++ newline)%string :: file_lines rest.
Proof.
  induction text as [|c text IH]; intros H.
  - reflexivity.
  - simpl in H. apply andb_true_iff in H. destruct H as [H Ht].
    apply andb_true_iff in H. destruct H as [H1 H2].
    apply negb_true_iff in H1, H2.
    change (String c text ++ newline ++ rest)%string
      with (String c (text ++ newline ++ rest)).
    cbn [file_lines]. rewrite H1, H2, (IH Ht). reflexivity.
Qed.

Lemma rstrip_all_space (s : string) : all_space s = true -> rstrip s = ""%string.
Proof.
  induction s as [|c s IH]; simpl; [reflexivity|]. intros H.
  apply andb_true_iff in H. destruct H as [Hc Hs]. now rewrite (IH Hs), Hc.
Qed.

Lemma rstrip_app_space (s r : string) :
  all_space r = true -> rstrip (s ++ r) = rstrip s.
Proof.
  intros Hr. induction s as [|c s IH]; simpl.
  - now apply rstrip_all_space.
  - now rewrite IH.
Qed.

Lemma rstrip_tight (s : string) : ends_tight s = true -> rstrip s = s.
Proof.
  induction s as [|c s IH]; [reflexivity|]. intros H.
  destruct s as [|c' s'].
  - simpl in *. apply negb_true_iff in H. now rewrite H.
  - change (ends_tight (String c (String c' s'))) with (ends_tight (String c' s')) in H.
    cbn [rstrip]. cbn [rstrip] in IH. now rewrite (IH H).
Qed.

Lemma lstrip_tight (s : string) :
  str_truthy s = true -> starts_tight s = true -> lstrip s = s.
Proof.
  destruct s as [|c s]; [discriminate|]. simpl. intros _ H.
  apply negb_true_iff in H. now rewrite H.
Qed.

Lemma lstrip_app_space (s r : string) :
  all_space r = true ->
  lstrip (s ++ r) = if all_space s then ""%string else (lstrip s ++ r)%string.
Proof.
  intros Hr. induction s as [|c s IH]; simpl.
  - destruct (lstrip_decomp r) as [l [H1 [H2 H3]]].
    assert (Hl : all_space (lstrip r) = true).
    { rewrite H1, all_space_app in Hr. apply andb_true_iff in Hr. tauto. }
    now apply all_space_tight.
  - destruct (isspace c); simpl; [exact IH | reflexivity].
Qed.

Lemma strip_app_space (s r : string) :
  all_space r = true -> strip (s ++ r) = strip s.
Proof.
  intros Hr. unfold strip. rewrite (lstrip_app_space s r Hr).
  destruct (all_space s) eqn:E.
  - symmetry. apply strip_empty_iff in E. exact E.
  - now apply rstrip_app_space.
Qed.

Lemma newline_space : all_space newline = true.
Proof. reflexivity. Qed.

Lemma strip_clean_line (text : string) :
  clean_text text = true -> strip (text ++ newline) = text.
Proof.
  unfold clean_text. intros H.
  apply andb_true_iff in H. destruct H as [H _].
  apply andb_true_iff in H. destruct H as [H He].
  apply andb_true_iff in H. destruct H as [Hn Hs].
  rewrite (strip_app_space text newline newline_space). unfold strip.
  rewrite (lstrip_tight text Hn Hs). now apply rstrip_tight.
Qed.

Lemma file_lines_shape (content : string) : Forall line_shape (file_lines content).
Proof.
  assert (Hnl : line_shape newline) by (exists ""%string; split; [reflexivity | now right]).
  induction content as [|c rest IH]; [constructor|].
  cbn [file_lines]. destruct (Ascii.eqb c LF) eqn:E1; [now constructor|].
  destruct (Ascii.eqb c CR) eqn:E2.
  - destruct rest as [|c' rest']; [constructor; [exact Hnl | constructor]|].
    destruct (Ascii.eqb c' LF) eqn:E3; [|now constructor].
    constructor; [exact Hnl|]. cbn [file_lines] in IH. rewrite E3 in IH.
    now inversion IH.
  - destruct (file_lines rest) as [|line lines].
    + constructor; [|constructor]. exists (String c ""). split; [|now left].
      simpl. now rewrite E1, E2.
    + inversion IH as [|? ? [body [Hb Hline]] Hrest]; subst.
      constructor; [|exact Hrest]. exists (String c body). split.
      * simpl. now rewrite E1, E2.
      * destruct Hline as [-> | ->]; [now left | now right].
Qed.

Lemma strip_line_clean (line : string) :
  line_shape line -> str_truthy (strip line) = true -> clean_text (strip line) = true.
Proof.
  intros [body [Hb Hline]] Ht.
  assert (E : strip line = strip body).
  { destruct Hline as [-> | ->]; [reflexivity | now apply strip_app_space]. }
  rewrite E in *. unfold clean_text. rewrite Ht. simpl.
  destruct (strip_trimmed body) as [l [r [H1 [_ [_ [H2 H3]]]]]].
  rewrite H2, H3. simpl.
  rewrite H1, !no_line_break_app in Hb.
  apply andb_true_iff in Hb. destruct Hb as [_ Hb].
  apply andb_true_iff in Hb. tauto.
Qed.

Lemma load_texts_file_of (texts : list string) :
  Forall (fun text => clean_text text = true) texts ->
  filter str_truthy (map strip (file_lines (texts_file_of texts))) = texts.
Proof.
  induction 1 as [|text texts Hc Hall IH]; [reflexivity|].
  cbn [texts_file_of fold_right]. fold (texts_file_of texts).
  assert (Hnb : no_line_break text = true).
  { unfold clean_text in Hc. apply andb_true_iff in Hc. tauto. }
  rewrite (file_lines_first text _ Hnb). cbn [map filter].
  rewrite (strip_clean_line text Hc).
  assert (Ht : str_truthy text = true).
  { unfold clean_text in Hc. apply andb_true_iff in Hc. destruct Hc as [Hc _].
    apply andb_true_iff in Hc. destruct Hc as [Hc _].
    apply andb_true_iff in Hc. tauto. }
  now rewrite Ht, IH.
Qed.

(** X17. The texts file read back. The texts the loader takes from any
    file are clean: non-empty, on one line, without whitespace at their
    ends. A file that has clean texts one per line is loaded as exactly
    these texts, in order, after the inline ones; so writing the loaded
    texts one per line and loading that file gives the same texts again. *)
Theorem X17_texts_file_round_trip :
  (forall content,
      Forall (fun text => clean_text text = true)
        (filter str_truthy (map strip (file_lines content)))) /\
  (forall (inline_texts texts : list string) (path : Path) (w : World),
      Forall (fun text => clean_text text = true) texts ->
      fs_lookup (files w) path = Some (File (texts_file_of texts)) ->
      load_texts inline_texts (Some path) w = (Ok (inline_texts ++ texts), w)) /\
  (forall (content : string) (path path' : Path) (w w' : World),
      fs_lookup (files w) path = Some (File content) ->
      forall texts, fst (load_texts [] (Some path) w) = Ok texts ->
      fs_lookup (files w') path' = Some (File (texts_file_of texts)) ->
      fst (load_texts [] (Some path') w') = Ok texts).
Proof.
  assert (Hclean : forall content,
             Forall (fun text => clean_text text = true)
               (filter str_truthy (map strip (file_lines content)))).
  { intros content. apply Forall_forall. intros text Hin.
    apply filter_In in Hin. destruct Hin as [Hin Ht].
    apply in_map_iff in Hin. destruct Hin as [line [<- Hline]].
    apply strip_line_clean; [|exact Ht].
    pose proof (file_lines_shape content) as Hs. rewrite Forall_forall in Hs.
    now apply Hs. }
  assert (Hload : forall (inline_texts texts : list string) (path : Path) (w : World),
             Forall (fun text => clean_text text = true) texts ->
             fs_lookup (files w) path = Some (File (texts_file_of texts)) ->
             load_texts inline_texts (Some path) w = (Ok (inline_texts ++ texts), w)).
  { intros inline texts path w Hc Hfile.
    unfold load_texts, bind, read_text, ret. rewrite Hfile.
    now rewrite load_line_fold, (load_texts_file_of texts Hc). }
  split; [exact Hclean|]. split; [exact Hload|].
  intros content path path' w w' Hfile texts Hl Hfile'.
  unfold load_texts, bind, read_text, ret in Hl. rewrite Hfile in Hl.
  simpl in Hl. rewrite load_line_fold in Hl. injection Hl as <-.
  rewrite (Hload [] _ path' w' (Hclean content) Hfile'). reflexivity.
Qed.

(** ** The further properties on the small instance *)

(** Five texts in batches of two. *)
Lemma X1_batched_partition_witness :
  0 < 2 /\
  exists batches,
    batched ["a"; "b"; "c"; "d"; "e"]%string 2 = Ok batches /\
    concat batches = ["a"; "b"; "c"; "d"; "e"]%string /\
    Z.of_nat (length batches) = 3.
Proof.
  split; [lia|].
  destruct (X1_batched_partition ["a"; "b"; "c"; "d"; "e"]%string 2 ltac:(lia))
    as [batches [H1 [H2 [_ [_ H3]]]]].
  exists batches. split; [exact H1 | split; [exact H2 | exact H3]].
Defined.

(** The best dimension of a row is kept with room for two and for three. *)
Lemma X5_top_k_monotone_witness :
  0 < 2 <= 3 /\
  In (4, (9 # 10)%Q)
    (kept_pairs (dense_row_to_sparse [1 # 2; 0; 1 # 2; 1 # 4; 9 # 10]%Q
                   toy_tokenizer 3 0%Q true)).
Proof.
  split; [lia|].
  apply (X5_top_k_monotone [1 # 2; 0; 1 # 2; 1 # 4; 9 # 10]%Q toy_tokenizer 2 3 0%Q true
           ltac:(lia)).
  right. left. reflexivity.
Defined.

(** The output file of the instance written a second time. *)
Lemma X11_write_jsonl_again_witness :
  write_jsonl toy_runtime toy_output [toy_row] toy_world =
    (Ok tt, snd (write_jsonl toy_runtime toy_output [toy_row] toy_world)) /\
  exists w2,
    write_jsonl toy_runtime toy_output []
      (snd (write_jsonl toy_runtime toy_output [toy_row] toy_world)) = (Ok tt, w2) /\
    files w2 toy_output = Some (File ""%string).
Proof.
  assert (H : write_jsonl toy_runtime toy_output [toy_row] toy_world =
              (Ok tt, snd (write_jsonl toy_runtime toy_output [toy_row] toy_world)))
    by reflexivity.
  split; [exact H|].
  destruct (X11_write_jsonl_again toy_runtime toy_output [toy_row] [] toy_world _ H)
    as [w2 [H1 [H2 _]]].
  exists w2. split; [exact H1 | exact H2].
Defined.

(** A run of the instance leaves its input file as it was. *)
Lemma X13_main_confined_witness :
  ~ main_paths toy_args ["in"; "texts.txt"]%string /\
  files (snd (main toy_runtime toy_args toy_world)) ["in"; "texts.txt"]%string =
  files toy_world ["in"; "texts.txt"]%string.
Proof.
  assert (H : ~ main_paths toy_args ["in"; "texts.txt"]%string).
  { intros [[H | [_ [rest [_ H]]]] | [H | [_ [rest [_ H]]]]]; discriminate H. }
  split; [exact H|].
  exact (X13_main_confined toy_runtime toy_args toy_world ["in"; "texts.txt"]%string H).
Defined.

(** The instance on a machine that cannot fetch the model. *)
Lemma X14_main_load_failure_witness :
  fst (load_texts (args_text toy_args) (args_texts_file toy_args) toy_world) =
    Ok toy_texts /\
  ~ invalid_input toy_args toy_texts /\
  main offline_runtime toy_args toy_world =
    (Raise OSError,
     {| files := files toy_world;
        stderr := ["Loading tokenizer/model: toy"%string];
        loaded := ["tokenizer"; "model"]%string |}).
Proof.
  assert (Hload : fst (load_texts (args_text toy_args) (args_texts_file toy_args)
                         toy_world) = Ok toy_texts) by reflexivity.
  assert (Hgood : ~ invalid_input toy_args toy_texts).
  { unfold invalid_input. simpl. intros H.
    repeat (destruct H as [H | H]; [try discriminate H; try lia; try (now compute in H)|]).
    try discriminate H; try lia; try (now compute in H). }
  split; [exact Hload|]. split; [exact Hgood|].
  destruct (X14_main_load_failure offline_runtime toy_args toy_world toy_texts OSError
              Hload Hgood) as [_ H].
  apply (H toy_tokenizer toy_model); [reflexivity | left; reflexivity].
Defined.

(** The run of the instance that returned 0. *)
Lemma X15_main_success_witness :
  main toy_runtime toy_args toy_world =
    (Ok 0, snd (main toy_runtime toy_args toy_world)) /\
  exists texts batches,
    fst (load_texts (args_text toy_args) (args_texts_file toy_args) toy_world) = Ok texts /\
    batched texts 2 = Ok batches /\
    loaded (snd (main toy_runtime toy_args toy_world)) = ["tokenizer"; "model"]%string.
Proof.
  assert (H : main toy_runtime toy_args toy_world =
              (Ok 0, snd (main toy_runtime toy_args toy_world))) by reflexivity.
  split; [exact H|].
  destruct (X15_main_success toy_runtime toy_args toy_world _ H)
    as [texts [tokenizer [model [vecs [batches [H1 [_ [_ [_ [_ [H6 [_ [_ [_ [H10 _]]]]]]]]]]]]]]].
  exists texts, batches. split; [exact H1 | split; [exact H6 | exact H10]].
Defined.

(** A call whose only text is two spaces is not refused. *)
Lemma X16_blank_inline_text_accepted_witness :
  args_text blank_args <> [] /\ args_texts_file blank_args = None /\
  0 < args_sequence_length blank_args /\ 0 < args_batch_size blank_args /\
  0 <= args_top_k blank_args /\ (0 <= args_prune_threshold blank_args)%Q /\
  fst (main toy_runtime blank_args toy_world) <> Ok 2.
Proof.
  assert (H1 : args_text blank_args <> []) by discriminate.
  assert (H2 : args_texts_file blank_args = None) by reflexivity.
  assert (H3 : 0 < args_sequence_length blank_args) by (simpl; lia).
  assert (H4 : 0 < args_batch_size blank_args) by (simpl; lia).
  assert (H5 : 0 <= args_top_k blank_args) by (simpl; lia).
  assert (H6 : (0 <= args_prune_threshold blank_args)%Q) by (simpl; apply Qle_refl).
  repeat (split; [assumption|]).
  exact (proj1 (proj2 (X16_blank_inline_text_accepted toy_runtime blank_args toy_world
                         H1 H2 H3 H4 H5 H6))).
Defined.
